(** * LibreSprite scripting layer: Engine, V8 and Lua back ends, dialog factory

    A shallow embedding of
    - [script::Engine] (the header at the end of cmd_run_script.cpp),
    - [V8Engine] / [V8ScriptObject] and [LuaEngine] / [LuaScriptObject]
      (engine.cpp),
    - [DialogScriptObject::add] / [get] and [ui::Dialog::add]
      (cmd_run_script.cpp),
    together with the properties of these that the specification states.

    The two interpreters themselves are foreign libraries.  Their parser and
    evaluator are taken as a record of functions (an "interpreter"), their
    data (Lua stack slots, V8 handles) is modelled as far as the adapters
    look at it. *)

From Stdlib Require Import ZArith String Ascii List Floats DecimalString.
From stdpp Require Import base option list gmap strings.
Import ListNotations.

Local Open Scope Z_scope.

Local Set Warnings "-register-all".

(** ** C++ scalar conversions *)

(** Conversion of a signed 64-bit integer to [int] / [int32_t]: the value is
    reduced modulo 2^32 into [-2^31, 2^31). *)
Definition to_int32 (i : Z) : Z := (i + 2^31) mod 2^32 - 2^31.

(** Conversion of an integer to [double] ([lua_Number], [v8::Number]): the
    nearest double, ties to even; exact for every 32-bit integer and for
    every integer of at most 53 bits. *)
Definition double_of_int (i : Z) : float :=
  SF2Prim (binary_normalize prec emax i 0 false).

(** A [const char*] obtained from text ends at the first NUL. *)
Fixpoint c_str (s : string) : string :=
  match s with
  | EmptyString => EmptyString
  | String c s' => if Ascii.eqb c Ascii.zero then EmptyString else String c (c_str s')
  end.

(** Text without a NUL is its own C string. *)
Fixpoint no_nul (s : string) : bool :=
  match s with
  | EmptyString => true
  | String c s' => negb (Ascii.eqb c Ascii.zero) && no_nul s'
  end.

(** *** UTF-8 text as V8 takes it

    [v8::String::NewFromUtf8] decodes its bytes as the Encoding standard
    says: every well-formed sequence is kept, every maximal ill-formed part
    becomes one U+FFFD.  Read back as UTF-8 the string is the input with each
    such part replaced by EF BF BD. *)
Definition replacement : string :=
  String (ascii_of_N 239) (String (ascii_of_N 191) (String (ascii_of_N 189) "")).

(** A sequence that has begun: the bytes still needed, the bounds of the next
    byte, the bytes seen. *)
Record utf8_pending : Type := mkPending {
  needed : nat;
  lower : N;
  upper : N;
  seen : string
}.

(** A byte where a sequence may start: what is put out at once, and the
    sequence it opens. *)
Definition utf8_start (b : ascii) : string * option utf8_pending :=
  let n := N_of_ascii b in
  if (n <=? 127)%N then (String b "", None)
  else if ((194 <=? n) && (n <=? 223))%N then
    ("", Some (mkPending 1 128 191 (String b "")))
  else if ((224 <=? n) && (n <=? 239))%N then
    ("", Some (mkPending 2 (if (n =? 224)%N then 160 else 128)%N
                           (if (n =? 237)%N then 159 else 191)%N (String b "")))
  else if ((240 <=? n) && (n <=? 244))%N then
    ("", Some (mkPending 3 (if (n =? 240)%N then 144 else 128)%N
                           (if (n =? 244)%N then 143 else 191)%N (String b "")))
  else (replacement, None).

Fixpoint utf8_repair_from (st : option utf8_pending) (s : string) : string :=
  match s with
  | EmptyString => match st with Some _ => replacement | None => EmptyString end
  | String b s' =>
      match st with
      | None => let '(out, st') := utf8_start b in out +:+ utf8_repair_from st' s'
      | Some p =>
          let n := N_of_ascii b in
          if ((lower p <=? n) && (n <=? upper p))%N then
            match needed p with
            | S (S k) =>
                utf8_repair_from (Some (mkPending (S k) 128 191 (seen p +:+ String b ""))) s'
            | _ => (seen p +:+ String b "") +:+ utf8_repair_from None s'
            end
          else
            (* the byte ends the ill-formed part and is looked at again *)
            let '(out, st') := utf8_start b in
            replacement +:+ out +:+ utf8_repair_from st' s'
      end
  end.

Definition utf8_repair (s : string) : string := utf8_repair_from None s.

(** The bytes a state has taken in and not yet put out. *)
Definition pending_text (st : option utf8_pending) : string :=
  match st with Some p => seen p | None => EmptyString end.

(** Well-formed UTF-8: the same table, with no byte out of place and no
    sequence cut short. *)
Fixpoint utf8_valid_from (st : option utf8_pending) (s : string) : bool :=
  match s with
  | EmptyString => match st with Some _ => false | None => true end
  | String b s' =>
      match st with
      | None =>
          if (N_of_ascii b <=? 127)%N then utf8_valid_from None s'
          else
            match snd (utf8_start b) with
            | Some p => utf8_valid_from (Some p) s'
            | None => false
            end
      | Some p =>
          let n := N_of_ascii b in
          if ((lower p <=? n) && (n <=? upper p))%N then
            match needed p with
            | S (S k) =>
                utf8_valid_from (Some (mkPending (S k) 128 191 (seen p +:+ String b ""))) s'
            | _ => utf8_valid_from None s'
            end
          else false
      end
  end.

Definition well_formed_utf8 (s : string) : bool := utf8_valid_from None s.

(** [std::to_string] of an unsigned number. *)
Definition to_string (n : N) : string := NilZero.string_of_uint (N.to_uint n).

(** ** script::Value *)

(** Addresses of native objects ([ScriptObject*], [Function*],
    [ObjectProperty*]); [0] is [nullptr]. *)
Definition addr := N.
Definition nullptr : addr := 0%N.

Module Value.

(** Modelled from the spec: script/value.h is not part of the sources.  The
    tagged union has the five kinds the adapters switch on; INT holds a signed
    64-bit integer, OBJECT a non-owning [ScriptObject*]. *)
Inductive Value : Type :=
| UNDEFINED
| INT (i : Z)
| DOUBLE (d : float)
| STRING (s : string)
| OBJECT (p : addr).

Inductive Type_ : Type := T_UNDEFINED | T_INT | T_DOUBLE | T_STRING | T_OBJECT.

Definition type (v : Value) : Type_ :=
  match v with
  | UNDEFINED => T_UNDEFINED
  | INT _ => T_INT
  | DOUBLE _ => T_DOUBLE
  | STRING _ => T_STRING
  | OBJECT _ => T_OBJECT
  end.

(** Modelled from the spec: the constructors of [Value] used by the adapters.
    an [int] and a [bool] (integral promotion) give INT,
    a [double] gives DOUBLE, a [const char*] gives STRING. *)
Definition of_int (i : Z) : Value := INT i.
Definition of_bool (b : bool) : Value := INT (if b then 1 else 0).
Definition of_double (d : float) : Value := DOUBLE d.
Definition of_cstr (s : string) : Value := STRING (c_str s).

End Value.
Import Value.

(** ** ScriptObject as the adapters see it *)

(** Modelled from the spec: script/script_object.h is not part of the sources.
    An adapter iterates [functions] (name to [Function]) and [properties]
    (name to [ObjectProperty]) and takes the address of each entry. *)
Record ScriptObject : Type := mkScriptObject {
  functions : list (string * addr);
  properties : list (string * addr)
}.

(** The native heap: which [ScriptObject] lives at an address.  Following a
    pointer that is not in the heap is undefined behaviour, [None] below. *)
Definition heap := gmap addr ScriptObject.

(** What a call writes to stdout ([printf]) next to its result. *)
Definition io (A : Type) : Type := (A * list string)%type.

(** ** The Lua C API, as far as LuaScriptObject uses it *)

Module Lua.

(** Type tags of lua.h. *)
Definition LUA_TNONE : Z := -1.
Definition LUA_TNIL : Z := 0.
Definition LUA_TBOOLEAN : Z := 1.
Definition LUA_TLIGHTUSERDATA : Z := 2.
Definition LUA_TNUMBER : Z := 3.
Definition LUA_TSTRING : Z := 4.
Definition LUA_TTABLE : Z := 5.
Definition LUA_TFUNCTION : Z := 6.
Definition LUA_TUSERDATA : Z := 7.
Definition LUA_TTHREAD : Z := 8.

(** The C functions LuaScriptObject registers as closures. *)
Inductive cfunction : Type := callFunc | getset.

(** A Lua value.  A compiled chunk is a function value that remembers its
    source text; [LClosure] stands for the functions a script defines. *)
Inductive TValue : Type :=
| LNil
| LBoolean (b : bool)
| LLightUserdata (p : addr)
| LInteger (i : Z)
| LNumber (n : float)
| LString (s : string)
| LTable (fields : list (string * TValue))
| LCClosure (f : cfunction) (upvalue : TValue)
| LChunk (code : string)
| LClosure (id : N)
| LUserdata (p : addr)
| LThread (id : N).

Definition ttype (v : TValue) : Z :=
  match v with
  | LNil => LUA_TNIL
  | LBoolean _ => LUA_TBOOLEAN
  | LLightUserdata _ => LUA_TLIGHTUSERDATA
  | LInteger _ | LNumber _ => LUA_TNUMBER
  | LString _ => LUA_TSTRING
  | LTable _ => LUA_TTABLE
  | LCClosure _ _ | LChunk _ | LClosure _ => LUA_TFUNCTION
  | LUserdata _ => LUA_TUSERDATA
  | LThread _ => LUA_TTHREAD
  end.

(** [lua_State]: the value stack of the running C function, bottom first
    (index 1 is the head), and the table of globals. *)
Record lua_State : Type := mkState {
  stack : list TValue;
  globals : gmap string TValue
}.

Definition with_stack (L : lua_State) (st : list TValue) : lua_State :=
  {| stack := st; globals := globals L |}.

Definition lua_gettop (L : lua_State) : Z := Z.of_nat (length (stack L)).

(** An acceptable index: positive counts from the bottom, negative from the
    top.  Anything else addresses no slot. *)
Definition index2value (L : lua_State) (idx : Z) : option TValue :=
  if 0 <? idx then stack L !! Z.to_nat (idx - 1)
  else if (idx <? 0) && (- idx <=? lua_gettop L) then stack L !! Z.to_nat (lua_gettop L + idx)
  else None.

Definition lua_type (L : lua_State) (idx : Z) : Z :=
  match index2value L idx with
  | Some v => ttype v
  | None => LUA_TNONE
  end.

Definition lua_tonumber (L : lua_State) (idx : Z) : float :=
  match index2value L idx with
  | Some (LNumber n) => n
  | Some (LInteger i) => double_of_int i
  | _ => PrimFloat.zero
  end.

Definition lua_toboolean (L : lua_State) (idx : Z) : Z :=
  match index2value L idx with
  | None | Some LNil | Some (LBoolean false) => 0
  | Some _ => 1
  end.

Definition lua_tostring (L : lua_State) (idx : Z) : string :=
  match index2value L idx with
  | Some (LString s) => s
  | _ => ""
  end.

Definition push (v : TValue) (L : lua_State) : lua_State :=
  with_stack L (stack L ++ [v]).

Definition lua_pushinteger (i : Z) : lua_State -> lua_State := push (LInteger i).
Definition lua_pushnumber (n : float) : lua_State -> lua_State := push (LNumber n).
Definition lua_pushstring (s : string) : lua_State -> lua_State := push (LString (c_str s)).
Definition lua_pushlightuserdata (p : addr) : lua_State -> lua_State := push (LLightUserdata p).
Definition lua_newtable : lua_State -> lua_State := push (LTable []).

(** The operations below fail ([None]) where the C API is misused (a missing
    slot, a field set on something that is no table). *)

(** [lua_pushcclosure(L, f, 1)]: the top slot becomes the upvalue. *)
Definition lua_pushcclosure (f : cfunction) (L : lua_State) : option lua_State :=
  match reverse (stack L) with
  | up :: rest => Some (with_stack L (reverse rest ++ [LCClosure f up]))
  | [] => None
  end.

Definition set_field (k : string) (v : TValue) (fields : list (string * TValue))
  : list (string * TValue) :=
  filter (fun e => e.1 ≠ k) fields ++ [(k, v)].

(** [lua_setfield(L, -2, k)]: pops the value, stores it in the table below. *)
Definition lua_setfield_2 (k : string) (L : lua_State) : option lua_State :=
  match reverse (stack L) with
  | v :: LTable fields :: rest =>
      Some (with_stack L (reverse rest ++ [LTable (set_field k v fields)]))
  | _ => None
  end.

Definition lua_pushvalue (idx : Z) (L : lua_State) : option lua_State :=
  v ← index2value L idx; Some (push v L).

Definition lua_setglobal (name : string) (L : lua_State) : option lua_State :=
  match reverse (stack L) with
  | v :: rest => Some {| stack := reverse rest; globals := <[name := v]> (globals L) |}
  | [] => None
  end.

(** [lua_pop(L, lua_gettop(L))]. *)
Definition lua_pop_all (L : lua_State) : lua_State := with_stack L [].

End Lua.

(** ** LuaScriptObject *)

Module LuaScriptObject.
Import Lua.

Definition getValue (L : lua_State) (index : Z) : io Value :=
  let type := lua_type L index in
  if type =? LUA_TNIL then (UNDEFINED, [])
  else if type =? LUA_TNUMBER then (of_double (lua_tonumber L index), [])
  else if type =? LUA_TBOOLEAN then (of_int (lua_toboolean L index), [])
  else if type =? LUA_TSTRING then (of_cstr (lua_tostring L index), [])
  else (* LUA_TTABLE, LUA_TFUNCTION, LUA_TUSERDATA, LUA_TTHREAD, and LUA_TLIGHTUSERDATA *)
    (UNDEFINED, []).

Fixpoint pushFunctions (fs : list (string * addr)) (L : lua_State) : option lua_State :=
  match fs with
  | [] => Some L
  | (name, ptr) :: fs' =>
      L1 ← lua_pushcclosure callFunc (lua_pushlightuserdata ptr L);
      L2 ← lua_setfield_2 (c_str name) L1;
      pushFunctions fs' L2
  end.

Fixpoint pushProperties (ps : list (string * addr)) (L : lua_State) : option lua_State :=
  match ps with
  | [] => Some L
  | (name, ptr) :: ps' =>
      L1 ← lua_pushcclosure getset (lua_pushlightuserdata ptr L);
      L2 ← lua_setfield_2 (c_str name) L1;
      pushProperties ps' L2
  end.

(** Returns the index of the new table. *)
Definition makeLocal (so : ScriptObject) (L : lua_State) : option (Z * lua_State) :=
  let L0 := lua_newtable L in
  let tableIndex := lua_gettop L0 in
  L1 ← pushFunctions (functions so) L0;
  L2 ← pushProperties (properties so) L1;
  Some (tableIndex, L2).

Definition makeGlobal (so : ScriptObject) (name : string) (L : lua_State) : option lua_State :=
  '(idx, L1) ← makeLocal so L;
  L2 ← lua_pushvalue idx L1;
  lua_setglobal (c_str name) L2.

(** The number of results pushed, and the new state. *)
Definition returnValue (h : heap) (L : lua_State) (value : Value) : option (Z * lua_State) :=
  match value with
  | UNDEFINED => Some (0, L)
  | INT i => Some (1, lua_pushinteger (to_int32 i) L)
  | DOUBLE d => Some (1, lua_pushnumber d L)
  | STRING s => Some (1, lua_pushstring s L)
  | OBJECT p =>
      if (p =? nullptr)%N then Some (0, L)
      else
        so ← h !! p;
        '(_, L') ← makeLocal so L;
        Some (1, L')
  end.

(** A Value handed to Lua and read back from the slot its result occupies
    (the first slot above the old top). *)
Definition roundtrip (h : heap) (L : lua_State) (v : Value) : option Value :=
  '(_, L') ← returnValue h L v;
  Some (getValue L' (lua_gettop L + 1)).1.

(** The closures [pushFunctions] and [pushProperties] store, as fields. *)
Definition closures (f : cfunction) (entries : list (string * addr))
    (fields : list (string * TValue)) : list (string * TValue) :=
  foldl (fun flds entry => set_field (c_str entry.1) (LCClosure f (LLightUserdata entry.2)) flds)
        fields entries.

(** The table [makeLocal] builds. *)
Definition table_of (so : ScriptObject) : TValue :=
  LTable (closures getset (properties so) (closures callFunc (functions so) [])).

End LuaScriptObject.

(** ** The V8 API, as far as V8ScriptObject uses it *)

Module V8.

(** The native callbacks V8ScriptObject registers. *)
Inductive callback : Type := callFunc | getterFunc | setterFunc.

(** A JavaScript value behind a non-empty handle.  A string is held as its
    UTF-8 text. *)
Inductive v8_value : Type :=
| VUndefined
| VNull
| VBoolean (b : bool)
| VNumber (d : float)
| VString (s : string)
| VSymbol (id : N)
| VBigInt (z : Z)
| VFunction (cb : callback) (data : addr)
| VScriptFunction (id : N)
| VObject (props : list (string * v8_property))
with v8_property : Type :=
| DataProperty (v : v8_value)
| AccessorProperty (getter setter : v8_value).

(** [v8::Local<v8::Value>]: a handle may be empty. *)
Definition Local := option v8_value.

Definition IsNullOrUndefined (v : v8_value) : bool :=
  match v with VUndefined | VNull => true | _ => false end.
Definition IsString (v : v8_value) : bool :=
  match v with VString _ => true | _ => false end.
Definition IsNumber (v : v8_value) : bool :=
  match v with VNumber _ => true | _ => false end.
Definition IsBoolean (v : v8_value) : bool :=
  match v with VBoolean _ => true | _ => false end.

(** The integer a double is, if it is one; minus zero is none. *)
Definition integer_of_double (d : float) : option Z :=
  match Prim2SF d with
  | S754_zero false => Some 0
  | S754_finite s m e =>
      let mag := if 0 <=? e then Some (Z.pos m * 2 ^ e)
                 else if Z.pos m mod 2 ^ (- e) =? 0 then Some (Z.pos m / 2 ^ (- e))
                 else None in
      (fun z => if s then - z else z) <$> mag
  | _ => None
  end.

Definition IsInt32 (v : v8_value) : bool :=
  match v with
  | VNumber d =>
      match integer_of_double d with
      | Some z => (- 2^31 <=? z) && (z <? 2^31)
      | None => false
      end
  | _ => false
  end.

Definition IsUint32 (v : v8_value) : bool :=
  match v with
  | VNumber d =>
      match integer_of_double d with
      | Some z => (0 <=? z) && (z <? 2^32)
      | None => false
      end
  | _ => false
  end.

Definition NumberValue (v : v8_value) : float :=
  match v with VNumber d => d | _ => PrimFloat.zero end.
Definition IntegerValue (v : v8_value) : Z :=
  match v with VNumber d => default 0 (integer_of_double d) | _ => 0 end.
Definition BooleanValue (v : v8_value) : bool :=
  match v with VBoolean b => b | _ => false end.
Definition Utf8Value_of_string (v : v8_value) : string :=
  match v with VString s => s | _ => "" end.

(** [v8::Value::TypeOf], the JavaScript [typeof]. *)
Definition TypeOf (v : v8_value) : string :=
  match v with
  | VUndefined => "undefined"
  | VNull => "object"
  | VBoolean _ => "boolean"
  | VNumber _ => "number"
  | VString _ => "string"
  | VSymbol _ => "symbol"
  | VBigInt _ => "bigint"
  | VFunction _ _ | VScriptFunction _ => "function"
  | VObject _ => "object"
  end.

Definition Int32_New (i : Z) : v8_value := VNumber (double_of_int i).
Definition Number_New (d : float) : v8_value := VNumber d.

(** [v8::String::NewFromUtf8(isolate, s)] of a C string: the text of the new
    string. *)
Definition NewFromUtf8_text (s : string) : string := utf8_repair (c_str s).
Definition String_NewFromUtf8 (s : string) : v8_value := VString (NewFromUtf8_text s).

(** [object->Set(context, key, v)] and [object->DefineProperty]: a property
    that exists is redefined where it is, a new one comes last. *)
Fixpoint set_property (k : string) (p : v8_property) (props : list (string * v8_property))
  : list (string * v8_property) :=
  match props with
  | [] => [(k, p)]
  | (k', p') :: rest =>
      if String.eqb k k' then (k, p) :: rest else (k', p') :: set_property k p rest
  end.

(** [ReturnValue::Set(handle)]: an empty handle leaves the default return
    value, undefined. *)
Definition ReturnValue_Set (l : Local) : v8_value := default VUndefined l.

End V8.

(** ** V8ScriptObject *)

Module V8ScriptObject.
Import V8.

Definition newline : string := String (ascii_of_nat 10) "".

(** [local] is a handle out of [FunctionCallbackInfo], never empty. *)
Definition getValue (local : v8_value) : io Value :=
  if IsNullOrUndefined local then (UNDEFINED, [])
  else if IsString local then (of_cstr (Utf8Value_of_string local), [])
  else if IsNumber local then (of_double (NumberValue local), [])
  else if IsUint32 local then (of_int (IntegerValue local), [])
  else if IsInt32 local then (of_int (IntegerValue local), [])
  else if IsBoolean local then (of_bool (BooleanValue local), [])
  else (UNDEFINED, ["Unknown type: [" +:+ TypeOf local +:+ "]" +:+ newline]).

Definition pushFunctions (fs : list (string * addr)) (object : list (string * v8_property))
  : list (string * v8_property) :=
  foldl (fun o entry =>
           set_property (NewFromUtf8_text entry.1) (DataProperty (VFunction callFunc entry.2)) o)
        object fs.

Definition pushProperties (ps : list (string * addr)) (object : list (string * v8_property))
  : list (string * v8_property) :=
  foldl (fun o entry =>
           set_property (NewFromUtf8_text entry.1)
             (AccessorProperty (VFunction getterFunc entry.2) (VFunction setterFunc entry.2)) o)
        object ps.

Definition makeLocal (so : ScriptObject) : v8_value :=
  VObject (pushProperties (properties so) (pushFunctions (functions so) [])).

(** The global object of a context: its properties by name. *)
Definition makeGlobal (so : ScriptObject) (name : string) (global : gmap string v8_value)
  : gmap string v8_value :=
  <[NewFromUtf8_text name := makeLocal so]> global.

(** [None] is a dangling [ScriptObject*]; [Some None] is the empty handle. *)
Definition returnValue (h : heap) (value : Value) : option Local :=
  match value with
  | UNDEFINED => Some None
  | INT i => Some (Some (Int32_New (to_int32 i)))
  | DOUBLE d => Some (Some (Number_New d))
  | STRING s => Some (Some (String_NewFromUtf8 s))
  | OBJECT p =>
      if (p =? nullptr)%N then Some None
      else so ← h !! p; Some (Some (makeLocal so))
  end.

(** A Value returned to a script through [callFunc]
    ([args.GetReturnValue().Set(returnValue(...))]) and passed back in as an
    argument ([getValue(isolate, args[i])]). *)
Definition roundtrip (h : heap) (v : Value) : option (io Value) :=
  l ← returnValue h v;
  Some (getValue (ReturnValue_Set l)).

End V8ScriptObject.

(** ** The registry of ScriptObject factories *)

(** Modelled from the spec: the [Injectable] registry (script/injection.h and
    script_object.h are not part of the sources).  A factory is registered
    under a name; an instance carries its flags, the name it binds itself to
    in the interpreter's top-level scope when it is flagged "global", and the
    functions and properties it declares. *)
Record Factory : Type := mkFactory {
  flags : list string;
  globalName : string;
  instance : ScriptObject
}.

Abbreviation registry := (gmap string Factory).

(** Modelled from the spec: [ScriptObject::getAllWithFlag(flag)] instantiates
    one object of every registered factory that carries the flag. *)
Definition getAllWithFlag (reg : registry) (flag : string) : list Factory :=
  filter (fun f => flag ∈ flags f) (snd <$> map_to_list reg).

(** Modelled from the spec: [inject<ScriptObject>{name}] resolves an explicit
    name to its factory, or to an empty handle. *)
Definition inject (reg : registry) (name : string) : option Factory := reg !! name.

(** ** What crosses the boundary of the engine *)

(** An afterEval listener is known by the identity of its [std::function]. *)
Definition listener := N.

(** Modelled from the spec: script/engine_delegate.h is not part of the
    sources.  [EngineDelegate::onConsolePrint] takes the text as a C string,
    a pointer that the callers do not check. *)
Inductive event : Type :=
| ConsolePrint (text : string)              (* EngineDelegate::onConsolePrint(text) *)
| ConsolePrintNull                          (* onConsolePrint with a null pointer *)
| AfterEval (l : listener) (success : bool) (* a listener is invoked *)
| InitGlobals (names : list string).        (* initGlobals instantiates the global objects *)

Definition is_console (ev : event) : bool :=
  match ev with ConsolePrint _ | ConsolePrintNull => true | _ => false end.
Definition is_afterEval (ev : event) : bool :=
  match ev with AfterEval _ _ => true | _ => false end.
Definition is_initGlobals (ev : event) : bool :=
  match ev with InitGlobals _ => true | _ => false end.

(** The console messages, the listener invocations and the initGlobals calls
    of a trace. *)
Definition console (tr : list event) : list event := List.filter is_console tr.
Definition fired (tr : list event) : list event := List.filter is_afterEval tr.
Definition inits (tr : list event) : list event := List.filter is_initGlobals tr.

(** ** script::Engine *)

Module Engine.

Record Engine : Type := mkEngine {
  m_scriptObjects : list Factory;
  m_afterEvalListeners : list listener
}.

Definition empty : Engine := {| m_scriptObjects := []; m_afterEvalListeners := [] |}.

(** [execAfterEval]: every stored listener is called, first to last; the list
    is left as it is.  The header spells the listener type
    [std::function<void(void)>]; both users of it, [LuaEngine::eval]
    ([execAfterEval(success)]) and the listener of [DialogScriptObject::build]
    ([(bool success)]), use the one-argument form, which is the one modelled. *)
Definition execAfterEval (success : bool) (e : Engine) : list event :=
  map (fun l => AfterEval l success) (m_afterEvalListeners e).

Definition initGlobals (reg : registry) (e : Engine) : Engine :=
  {| m_scriptObjects := getAllWithFlag reg "global";
     m_afterEvalListeners := m_afterEvalListeners e |}.

Definition afterEval (callback : listener) (e : Engine) : Engine :=
  {| m_scriptObjects := m_scriptObjects e;
     m_afterEvalListeners := m_afterEvalListeners e ++ [callback] |}.

(** The listeners that native callbacks register while a script runs
    ([DialogScriptObject::build] does). *)
Definition afterEvalAll (callbacks : list listener) (e : Engine) : Engine :=
  foldl (fun e cb => afterEval cb e) e callbacks.

End Engine.

(** What a member function leaves behind: its return value, the object
    afterwards and the events it caused, oldest first. *)
Record result (A S : Type) : Type := mkResult {
  ret : A;
  state : S;
  trace : list event
}.
Arguments mkResult {A S} _ _ _.
Arguments ret {A S} _.
Arguments state {A S} _.
Arguments trace {A S} _.

Definition dquote : string := String (ascii_of_nat 34) "".

(** ** LuaEngine *)

Module LuaEngine.
Import Lua.

Definition LUA_OK : Z := 0.
Definition LUA_ERRRUN : Z := 2.
Definition LUA_ERRSYNTAX : Z := 3.

(** How the run of a chunk ends. *)
Inductive ending : Type :=
| Finished                (* the chunk ran to its end *)
| Raised (msg : TValue)   (* a Lua error, which lua_pcall catches *)
| Thrown (what : string). (* a std::exception out of a native callback *)

(** A run: its ending, the globals it leaves, and the listeners that native
    callbacks registered through [afterEval] while it ran. *)
Record run : Type := mkRun {
  run_end : ending;
  run_globals : gmap string TValue;
  run_listeners : list listener
}.

(** The Lua library: the globals [luaL_openlibs] installs, the parser ([None]
    when the chunk compiles, else the error message) and the evaluator. *)
Record Interp : Type := mkInterp {
  openlibs : gmap string TValue;
  parse : string -> option string;
  exec : string -> gmap string TValue -> run
}.

Definition luaL_newstate : lua_State := {| stack := []; globals := ∅ |}.

Definition luaL_openlibs (I : Interp) (L : lua_State) : lua_State :=
  {| stack := stack L; globals := openlibs I ∪ globals L |}.

(** The compiled chunk, or the error message, is pushed. *)
Definition luaL_loadstring (I : Interp) (s : string) (L : lua_State) : Z * lua_State :=
  match parse I s with
  | None => (LUA_OK, push (LChunk s) L)
  | Some msg => (LUA_ERRSYNTAX, push (LString msg) L)
  end.

Inductive pcall_result : Type :=
| Returned (status : Z) (L' : lua_State) (callbacks : list listener)
| Threw (what : string) (L' : lua_State) (callbacks : list listener).

(** [lua_pcall(L, 0, 0, 0)]: the function on top is popped and called without
    arguments; its results are dropped; an error leaves its message. *)
Definition lua_pcall (I : Interp) (L : lua_State) : pcall_result :=
  match reverse (stack L) with
  | LChunk code :: rest =>
      let r := exec I code (globals L) in
      let L' := {| stack := reverse rest; globals := run_globals r |} in
      match run_end r with
      | Finished => Returned LUA_OK L' (run_listeners r)
      | Raised msg => Returned LUA_ERRRUN (push msg L') (run_listeners r)
      | Thrown what => Threw what L' (run_listeners r)
      end
  | _ :: rest =>
      Returned LUA_ERRRUN (with_stack L (reverse rest ++ [LString "attempt to call a value"])) []
  | [] => Returned LUA_ERRRUN (push (LString "attempt to call a value") L) []
  end.

Record LuaEngine : Type := mkLuaEngine {
  base : Engine.Engine;
  m_printLastResult : bool;
  L : lua_State
}.

Definition with_L (e : LuaEngine) (L' : lua_State) : LuaEngine :=
  {| base := base e; m_printLastResult := m_printLastResult e; L := L' |}.

Definition with_base (e : LuaEngine) (b : Engine.Engine) : LuaEngine :=
  {| base := b; m_printLastResult := m_printLastResult e; L := L e |}.

Definition afterEval (callback : listener) (e : LuaEngine) : LuaEngine :=
  with_base e (Engine.afterEval callback (base e)).

Definition register (callbacks : list listener) (e : LuaEngine) : LuaEngine :=
  with_base e (Engine.afterEvalAll callbacks (base e)).

(** Modelled from the spec: a global object binds itself through
    [InternalScriptObject::makeGlobal(name)] when it is instantiated. *)
Fixpoint bindGlobals (objs : list Factory) (L : lua_State) : option lua_State :=
  match objs with
  | [] => Some L
  | f :: objs' =>
      L' ← LuaScriptObject.makeGlobal (instance f) (globalName f) L;
      bindGlobals objs' L'
  end.

Definition initGlobals (reg : registry) (e : LuaEngine) : option (result unit LuaEngine) :=
  let b := Engine.initGlobals reg (base e) in
  L' ← bindGlobals (Engine.m_scriptObjects b) (L e);
  Some {| ret := tt;
          state := with_L (with_base e b) L';
          trace := [InitGlobals (map globalName (Engine.m_scriptObjects b))] |}.

(** The constructor. *)
Definition new (I : Interp) (reg : registry) : option (result unit LuaEngine) :=
  let L := luaL_newstate in
  let L := luaL_openlibs I L in
  initGlobals reg {| base := Engine.empty; m_printLastResult := false; L := L |}.

Definition printLastResult (e : LuaEngine) : LuaEngine :=
  {| base := base e; m_printLastResult := true; L := L e |}.

Definition eval (I : Interp) (code : string) (e : LuaEngine) : result bool LuaEngine :=
  let success := true in
  (* the try block: [inl] when it runs to its end, [inr] when it throws *)
  let attempt : (bool * LuaEngine) + (string * LuaEngine) :=
    let '(status, L1) := luaL_loadstring I (c_str code) (L e) in
    let branch : (bool * LuaEngine) + (string * LuaEngine) :=
      if status =? LUA_OK then
        match lua_pcall I L1 with
        | Returned status2 L2 callbacks =>
            let e2 := with_L (register callbacks e) L2 in
            if status2 =? LUA_OK then inl (success, with_L e2 (lua_pop_all L2))
            else inl (false, e2)
        | Threw what L2 callbacks => inr (what, with_L (register callbacks e) L2)
        end
      else inl (success, with_L e L1) in
    match branch with
    | inl (success, e') =>
        let success := false in (* the statement after the outer if *)
        inl (success, e')
    | inr thrown => inr thrown
    end in
  let '(success, e', printed) :=
    match attempt with
    | inl (success, e') => (success, e', [])
    | inr (what, e') => (false, e', [ConsolePrint (c_str ("Error: " +:+ what))])
    end in
  {| ret := success;
     state := e';
     trace := printed ++ Engine.execAfterEval success (base e') |}.

(** The snippet [raiseEvent] evaluates. *)
Definition onEvent_snippet (event : string) : string :=
  "if onEvent~=nil then onEvent(" +:+ dquote +:+ event +:+ dquote +:+ ") end".

Definition raiseEvent (I : Interp) (event : string) (e : LuaEngine) : result bool LuaEngine :=
  eval I (onEvent_snippet event) e.

(** What [eval] does for each way the parser and the run can end. *)
Definition eval_cases (I : Interp) (code : string) (e : LuaEngine) : result bool LuaEngine :=
  match parse I (c_str code) with
  | Some msg =>
      {| ret := false;
         state := with_L e (push (LString msg) (L e));
         trace := Engine.execAfterEval false (base e) |}
  | None =>
      let r := exec I (c_str code) (globals (L e)) in
      let e2 := register (run_listeners r) e in
      match run_end r with
      | Finished =>
          {| ret := false;
             state := with_L e2 {| stack := []; globals := run_globals r |};
             trace := Engine.execAfterEval false (base e2) |}
      | Raised msg =>
          {| ret := false;
             state := with_L e2 {| stack := stack (L e) ++ [msg]; globals := run_globals r |};
             trace := Engine.execAfterEval false (base e2) |}
      | Thrown what =>
          {| ret := false;
             state := with_L e2 {| stack := stack (L e); globals := run_globals r |};
             trace := ConsolePrint (c_str ("Error: " +:+ what))
                        :: Engine.execAfterEval false (base e2) |}
      end
  end.

(** The listeners registered while the chunk ran. *)
Definition registered (I : Interp) (code : string) (e : LuaEngine) : list listener :=
  match parse I (c_str code) with
  | Some _ => []
  | None => run_listeners (exec I (c_str code) (globals (L e)))
  end.

(** The engine the constructor builds. *)
Definition constructed (I : Interp) (reg : registry) : LuaEngine :=
  let objs := getAllWithFlag reg "global" in
  {| base :=
       {| Engine.m_scriptObjects := objs; Engine.m_afterEvalListeners := [] |};
     m_printLastResult := false;
     L :=
       {| stack := map (fun f => LuaScriptObject.table_of (instance f)) objs;
          globals :=
            foldl (fun g f => <[c_str (globalName f) := LuaScriptObject.table_of (instance f)]> g)
                  (openlibs I ∪ ∅) objs |} |}.

End LuaEngine.

(** ** V8Engine *)

Module V8Engine.
Import V8.

(** What [script->Run(context)] gives back. *)
Inductive completion : Type :=
| Value (v : v8_value)                (* a non-empty MaybeLocal *)
| Empty (caught : option v8_value)    (* empty; the TryCatch may hold the exception *)
| Thrown (what : string).             (* a std::exception out of a native callback *)

Record run : Type := mkRun {
  run_completion : completion;
  run_listeners : list listener
}.

(** The V8 library: whether a source compiles and the evaluator (given the
    global object of the context), both on the bytes handed to
    [NewFromUtf8], whose decoding is the library's; and JavaScript's
    conversion to string, which fails ([None]) for a symbol or when a
    [toString] of the script throws. *)
Record Interp : Type := mkInterp {
  compiles : string -> bool;
  exec : string -> gmap string v8_value -> run;
  ToString : v8_value -> option string
}.

(** [v8::String::Utf8Value utf8(isolate, v)]: [*utf8] is the text, or NULL
    ([None]) when the conversion fails. *)
Definition Utf8Value (I : Interp) (v : v8_value) : option string :=
  match v with
  | VString s => Some s
  | _ => ToString I v
  end.

(** [m_delegate->onConsolePrint( *utf8 )], unguarded. *)
Definition onConsolePrint (text : option string) : event :=
  match text with
  | Some s => ConsolePrint (c_str s)
  | None => ConsolePrintNull
  end.

Record V8Engine : Type := mkV8Engine {
  base : Engine.Engine;
  m_printLastResult : bool
}.

Definition with_base (e : V8Engine) (b : Engine.Engine) : V8Engine :=
  {| base := b; m_printLastResult := m_printLastResult e |}.

(** The constructor: the isolate is created, nothing else. *)
Definition new : V8Engine := {| base := Engine.empty; m_printLastResult := false |}.

Definition afterEval (callback : listener) (e : V8Engine) : V8Engine :=
  with_base e (Engine.afterEval callback (base e)).

Definition register (callbacks : list listener) (e : V8Engine) : V8Engine :=
  with_base e (Engine.afterEvalAll callbacks (base e)).

Definition printLastResult (e : V8Engine) : V8Engine :=
  {| base := base e; m_printLastResult := true |}.

(** Modelled from the spec: a global object binds itself through
    [InternalScriptObject::makeGlobal(name)] when it is instantiated. *)
Definition bindGlobals (objs : list Factory) (global : gmap string v8_value)
  : gmap string v8_value :=
  foldl (fun g f => V8ScriptObject.makeGlobal (instance f) (globalName f) g) global objs.

(** [initGlobals()] inside a fresh context. *)
Definition initGlobals (reg : registry) (e : V8Engine)
  : result (gmap string v8_value) V8Engine :=
  let b := Engine.initGlobals reg (base e) in
  {| ret := bindGlobals (Engine.m_scriptObjects b) ∅;
     state := with_base e b;
     trace := [InitGlobals (map globalName (Engine.m_scriptObjects b))] |}.

(** How a call ends: it returns, or the process is ended
    ([ToLocalChecked] on an empty handle is a fatal error of V8, no
    exception; an exception out of a native callback terminates). *)
Inductive exit : Type :=
| Returns (b : bool)
| Aborts.

(** The native code that [eval] calls directly, the constructors of the
    global objects and the delegate, is taken not to throw.  A
    [std::exception] that leaves a native callback while the script runs
    cannot pass the frames of V8, which is built without exceptions: it does
    not reach the catch block, the process is terminated. *)
Definition eval (I : Interp) (reg : registry) (code : string) (e : V8Engine)
  : result exit V8Engine :=
  let errFlag := true in
  (* a new context; initGlobals() *)
  let g := initGlobals reg e in
  let source := c_str code in
  if compiles I source then
    let r := exec I source (ret g) in
    let e1 := register (run_listeners r) (state g) in
    match run_completion r with
    | Thrown what => {| ret := Aborts; state := e1; trace := trace g |}
    | Empty caught =>
        let printed :=
          match caught with
          | Some exception => [onConsolePrint (Utf8Value I exception)]
          | None => []
          end in
        let errFlag := false in
        {| ret := Returns errFlag; state := e1; trace := trace g ++ printed |}
    | Value v =>
        let printed :=
          if m_printLastResult e then [onConsolePrint (Utf8Value I v)] else [] in
        let errFlag := false in
        {| ret := Returns errFlag; state := e1; trace := trace g ++ printed |}
    end
  else
    (* Script::Compile(...).ToLocalChecked() on an empty MaybeLocal *)
    {| ret := Aborts; state := state g; trace := trace g |}.

End V8Engine.

(** ** ui::Dialog and DialogScriptObject *)

(** Modelled from the spec: [base::string_to_lower] (base/string.h is not part
    of the sources) lower-cases the whole name; [tolower] and [toupper] are
    those of the C locale. *)
Definition tolower (c : ascii) : ascii :=
  let n := N_of_ascii c in
  if ((65 <=? n) && (n <=? 90))%N then ascii_of_N (n + 32) else c.

Definition toupper (c : ascii) : ascii :=
  let n := N_of_ascii c in
  if ((97 <=? n) && (n <=? 122))%N then ascii_of_N (n - 32) else c.

Fixpoint string_to_lower (s : string) : string :=
  match s with
  | EmptyString => EmptyString
  | String c s' => String (tolower c) (string_to_lower s')
  end.

Module Dialog.

Inductive DisplayType : Type := Inherit | Block | Inline.

(** Modelled from the spec: a widget script object as the dialog uses it
    (widget_script.h is not part of the sources): how it wants to be laid out,
    the [ui::Widget*] it wraps, and the id given to it. *)
Record WidgetScriptObject : Type := mkWidget {
  getDisplayType : DisplayType;
  getWrapped : addr;
  id : string
}.

Definition set_id (cleanId : string) (w : WidgetScriptObject) : WidgetScriptObject :=
  {| getDisplayType := getDisplayType w; getWrapped := getWrapped w; id := cleanId |}.

Record Dialog : Type := mkDialog {
  m_isInline : bool;
  m_children : list (list addr)
}.

Definition add (child : WidgetScriptObject) (d : Dialog) : Dialog :=
  let nextIsInline := m_isInline d in
  let '(nextIsInline, isInline) :=
    match getDisplayType child with
    | Inherit => (nextIsInline, m_isInline d)
    | Block => (false, false)
    | Inline => (true, m_isInline d)
    end in
  let ui := getWrapped child in
  if (ui =? nullptr)%N then {| m_isInline := isInline; m_children := m_children d |}
  else
    let children :=
      match reverse (m_children d) with
      | back :: rest => if isInline then reverse rest ++ [back ++ [ui]]
                        else m_children d ++ [[ui]]
      | [] => m_children d ++ [[ui]]
      end in
    {| m_isInline := nextIsInline; m_children := children |}.

Definition addBreak (d : Dialog) : Dialog :=
  {| m_isInline := false; m_children := m_children d |}.

End Dialog.

Module DialogScriptObject.
Import Dialog.

Record DialogScriptObject : Type := mkDialogScriptObject {
  m_widgets : gmap string WidgetScriptObject;
  m_nextWidgetId : N;     (* uint32_t *)
  m_widget : Dialog       (* the wrapped ui::Dialog *)
}.

Definition get (id : string) (d : DialogScriptObject) : option WidgetScriptObject :=
  m_widgets d !! id.

(** The three steps on the local [cleanType]. *)
Definition capitalize (s : string) : string :=
  match s with
  | EmptyString => EmptyString
  | String c s' => String (toupper c) s'
  end.

Definition cleanType (type : string) : string :=
  let cleanType := string_to_lower type in (* lAbEl -> label *)
  let cleanType := capitalize cleanType in (* label -> Label *)
  cleanType +:+ "WidgetScriptObject".      (* Label -> LabelWidgetScriptObject *)

(** [m_widgets.emplace(k, w)]: nothing is stored when the key is taken. *)
Definition emplace (k : string) (w : WidgetScriptObject) (m : gmap string WidgetScriptObject)
  : gmap string WidgetScriptObject :=
  match m !! k with
  | Some _ => m
  | None => <[k := w]> m
  end.

(** The widget factories of the registry; the result is the new widget, or
    [None] for [nullptr]. *)
Definition add (reg : gmap string WidgetScriptObject) (type id : string)
    (d : DialogScriptObject) : option WidgetScriptObject * DialogScriptObject :=
  if bool_decide (type = "") || bool_decide (is_Some (get id d)) then (None, d)
  else
    let unprefixedType := string_to_lower type in
    match reg !! cleanType type with
    | None => (None, d)
    | Some widget =>
        let dialog := Dialog.add widget (m_widget d) in
        let '(cleanId, next) :=
          if bool_decide (id ≠ "") then (id, m_nextWidgetId d)
          else (unprefixedType +:+ to_string (m_nextWidgetId d),
                ((m_nextWidgetId d + 1) mod 2 ^ 32)%N) in
        let widget := set_id cleanId widget in
        (Some widget,
         {| m_widgets := emplace cleanId widget (m_widgets d);
            m_nextWidgetId := next;
            m_widget := dialog |})
    end.

End DialogScriptObject.

(** ** Sample data for the concrete instances below *)

Module Sample.

(** A Lua library that rejects the sources listed in [bad] and runs every other
    chunk to its end without touching anything. *)
Definition lua (bad : list string) : LuaEngine.Interp :=
  {| LuaEngine.openlibs := ∅;
     LuaEngine.parse := fun s => if bool_decide (s ∈ bad) then Some "syntax error" else None;
     LuaEngine.exec := fun _ g => LuaEngine.mkRun LuaEngine.Finished g [] |}.

(** A V8 library of the same kind; every script evaluates to undefined. *)
Definition v8 (bad : list string) : V8Engine.Interp :=
  {| V8Engine.compiles := fun s => negb (bool_decide (s ∈ bad));
     V8Engine.exec := fun _ _ => V8Engine.mkRun (V8Engine.Value V8.VUndefined) [];
     V8Engine.ToString := fun _ => Some "undefined" |}.

(** One script object, flagged global and bound as [app]. *)
Definition app : ScriptObject :=
  {| functions := [("open", 16%N)]; properties := [("version", 32%N)] |}.

Definition reg : registry :=
  {[ "AppScriptObject" := {| flags := ["global"]; globalName := "app"; instance := app |} ]}.

Definition objects : heap := {[ 5%N := app ]}.

(** A text given by its bytes. *)
Definition bytes (l : list N) : string :=
  fold_right (fun n s => String (ascii_of_N n) s) EmptyString l.

(** A text with a NUL in it, and a byte that is not UTF-8. *)
Definition text_with_nul : string := bytes [97; 0; 98]%N.
Definition ill_formed : string := bytes [255]%N.

Definition lua_engine : LuaEngine.LuaEngine :=
  {| LuaEngine.base := Engine.afterEval 1%N Engine.empty;
     LuaEngine.m_printLastResult := false;
     LuaEngine.L := LuaEngine.luaL_newstate |}.

Definition v8_engine : V8Engine.V8Engine := V8Engine.afterEval 1%N V8Engine.new.

(** Interpreters that run a script as the sample ones do where [app] is
    bound, and stop it with a native exception where it is not. *)
Definition v8_needs_app : V8Engine.Interp :=
  {| V8Engine.compiles := V8Engine.compiles (v8 []);
     V8Engine.exec := fun src g =>
       if bool_decide (is_Some (g !! "app")) then V8Engine.exec (v8 []) src g
       else V8Engine.mkRun (V8Engine.Thrown "app is not defined") [];
     V8Engine.ToString := V8Engine.ToString (v8 []) |}.

Definition lua_needs_app : LuaEngine.Interp :=
  {| LuaEngine.openlibs := LuaEngine.openlibs (lua []);
     LuaEngine.parse := LuaEngine.parse (lua []);
     LuaEngine.exec := fun src g =>
       if bool_decide (is_Some (g !! "app")) then LuaEngine.exec (lua []) src g
       else LuaEngine.mkRun (LuaEngine.Thrown "app is not defined") g [] |}.

End Sample.

(** ** One engine over many calls *)

Module Session.

Inductive call : Type :=
| CallAfterEval (callback : listener)
| CallEval (code : string)
| CallRaiseEvent (event : string)
| CallPrintLastResult.

Definition is_evaluation (c : call) : bool :=
  match c with CallEval _ | CallRaiseEvent _ => true | _ => false end.

Definition step (I : LuaEngine.Interp) (c : call) (e : LuaEngine.LuaEngine)
  : LuaEngine.LuaEngine * list event :=
  match c with
  | CallAfterEval cb => (LuaEngine.afterEval cb e, [])
  | CallEval code => let r := LuaEngine.eval I code e in (state r, trace r)
  | CallRaiseEvent event => let r := LuaEngine.raiseEvent I event e in (state r, trace r)
  | CallPrintLastResult => (LuaEngine.printLastResult e, [])
  end.

(** The calls made on one LuaEngine, each with the events it caused, and the
    engine after the last one. *)
Fixpoint session (I : LuaEngine.Interp) (cs : list call) (e : LuaEngine.LuaEngine)
  : list (call * list event) * LuaEngine.LuaEngine :=
  match cs with
  | [] => ([], e)
  | c :: cs' =>
      let '(e1, tr) := step I c e in
      let '(log, e2) := session I cs' e1 in
      ((c, tr) :: log, e2)
  end.

Definition listeners (e : LuaEngine.LuaEngine) : list listener :=
  Engine.m_afterEvalListeners (LuaEngine.base e).

End Session.

(** ** Tables and objects by name *)

(** What a Lua table or a JavaScript object holds under a name
    ([lua_getfield], [object->Get]). *)
Fixpoint lookup_name {V : Type} (k : string) (entries : list (string * V)) : option V :=
  match entries with
  | [] => None
  | (k', v) :: rest => if String.eqb k k' then Some v else lookup_name k rest
  end.

(** The name a function or a property is stored under: the C string of its
    name in a Lua table, what V8 reads of that C string in an object. *)
Definition lua_name (entry : string * addr) : string := c_str entry.1.
Definition v8_name (entry : string * addr) : string := V8.NewFromUtf8_text entry.1.

(** ** Native functions called from a script *)

(** Modelled from the spec: script/function.h is not part of the sources.  A
    [Function] holds the arguments collected for the pending call, the result
    of the last call and the native body; a call hands the arguments to the
    body, stores the result and clears the arguments.  An [ObjectProperty] is
    a getter and a setter. *)
Module Native.

Record Function : Type := mkFunction {
  arguments : list Value;
  result : Value;
  body : list Value -> Value
}.

Definition push_back (v : Value) (f : Function) : Function :=
  {| arguments := arguments f ++ [v]; result := result f; body := body f |}.

Definition call (f : Function) : Function :=
  {| arguments := []; result := body f (arguments f); body := body f |}.

Record ObjectProperty : Type := mkObjectProperty {
  getter : Function;
  setter : Function
}.

End Native.

Module LuaCallbacks.
Import Lua LuaScriptObject Native.

(** [lua_touserdata]: the address of a userdata, else NULL. *)
Definition lua_touserdata (v : TValue) : addr :=
  match v with
  | LLightUserdata p | LUserdata p => p
  | _ => nullptr
  end.

(** The loop [for (int i = 1; i <= n; i++) func.arguments.push_back(getValue(L, i))]. *)
Fixpoint collect (L : lua_State) (i : Z) (count : nat) (f : Function) : Function :=
  match count with
  | O => f
  | S count' => collect L (i + 1) count' (push_back (getValue L i).1 f)
  end.

(** [callFunc]: [upvalue] is the closure's first upvalue, [fns] the functions
    in native memory.  The result is the number of values returned to Lua, the
    stack and the memory afterwards; [None] where a pointer dangles. *)
Definition callFunc (h : heap) (fns : gmap addr Function) (upvalue : TValue) (L : lua_State)
  : option (Z * lua_State * gmap addr Function) :=
  let n := lua_gettop L in
  let funcptr := lua_touserdata upvalue in
  if (funcptr =? nullptr)%N then Some (0, L, fns)
  else
    func ← fns !! funcptr;
    let func := collect L 1 (Z.to_nat n) func in
    let func := call func in
    '(k, L') ← returnValue h L (result func);
    Some (k, L', <[funcptr := func]> fns).

(** [getset]: the accessor of a property, the setter when called with
    arguments, the getter when called without. *)
Definition getset (h : heap) (props : gmap addr ObjectProperty) (upvalue : TValue)
    (L : lua_State) : option (Z * lua_State * gmap addr ObjectProperty) :=
  let n := lua_gettop L in
  let ptr := lua_touserdata upvalue in
  if (ptr =? nullptr)%N then Some (0, L, props)
  else
    prop ← props !! ptr;
    let func := if n =? 0 then getter prop else setter prop in
    let func := collect L 1 (Z.to_nat n) func in
    let func := call func in
    '(k, L') ← returnValue h L (result func);
    let prop' := if n =? 0 then {| getter := func; setter := setter prop |}
                 else {| getter := getter prop; setter := func |} in
    Some (k, L', <[ptr := prop']> props).

End LuaCallbacks.

Module V8Callbacks.
Import V8 V8ScriptObject Native.

(** The loop over [args] in [callFunc]; the second component collects what
    [getValue] logs. *)
Fixpoint collect (args : list v8_value) (f : Function) : Function * list string :=
  match args with
  | [] => (f, [])
  | a :: args' =>
      let '(v, log) := getValue a in
      let '(f', log') := collect args' (push_back v f) in
      (f', log ++ log')
  end.

(** [callFunc]: [data] is the address in the callback's [v8::External].  The
    result is the value of [args.GetReturnValue()], the memory afterwards and
    the lines logged. *)
Definition callFunc (h : heap) (fns : gmap addr Function) (data : addr) (args : list v8_value)
  : option (v8_value * gmap addr Function * list string) :=
  func ← fns !! data;
  let '(func, log) := collect args func in
  let func := call func in
  l ← returnValue h (result func);
  Some (ReturnValue_Set l, <[data := func]> fns, log).

Definition getterFunc (h : heap) (fns : gmap addr Function) (data : addr) (args : list v8_value)
  : option (v8_value * gmap addr Function * list string) :=
  func ← fns !! data;
  let func := call func in
  l ← returnValue h (result func);
  Some (ReturnValue_Set l, <[data := func]> fns, []).

Definition setterFunc (h : heap) (fns : gmap addr Function) (data : addr) (args : list v8_value)
  : option (v8_value * gmap addr Function * list string) :=
  match args with
  | [a] =>
      func ← fns !! data;
      let '(v, log) := getValue a in
      let func := push_back v func in
      let func := call func in
      l ← returnValue h (result func);
      Some (ReturnValue_Set l, <[data := func]> fns, log)
  | _ => Some (VUndefined, fns, [])
  end.

End V8Callbacks.

(** ** The dialog window *)

Module DialogWindow.

(** [addChildInCell(widget, hspan, 1, align)]. *)
Record Cell : Type := mkCell {
  cell_widget : addr;
  cell_hspan : nat
}.

Record Grid : Type := mkGrid {
  columns : nat;
  cells : list Cell
}.

(** A [ui::Dialog] with what it inherits: its address, the widget id, whether
    it is alive ([base::IsAlive]) and visible, the handlers connected to
    [Close], and the layout state of [Dialog]. *)
Record Window : Type := mkWindow {
  this : addr;
  id : string;
  isAlive : bool;
  isVisible : bool;
  close_handlers : nat;
  m_scriptFileName : string;
  m_grid : option Grid;
  layout : Dialog.Dialog
}.

(** [dialog::getDialogIndex()]. *)
Abbreviation DialogIndex := (gmap string addr).

(** Calls that leave the dialog. *)
Inductive ui_call : Type :=
| RaiseEvent (fileName event : string)   (* app::AppScripting::raiseEvent *)
| ManagerCloseWindow (w : addr)          (* manager()->_closeWindow(this, true) *)
| OpenWindow (w : addr)                  (* centerWindow(); openWindow() *)
| Delayed (w : addr).                    (* TaskManager::delayed: delete w if it is alive *)

Definition getDialogById (id : string) (index : DialogIndex) : addr :=
  match index !! id with
  | None => nullptr
  | Some p => p
  end.

Definition unlist (w : Window) (index : DialogIndex) : DialogIndex :=
  match index !! id w with
  | Some p => if (p =? this w)%N then delete (id w) index else index
  | None => index
  end.

(** The first loop of [build]. *)
Definition maxColumns (children : list (list addr)) : nat :=
  foldl (fun maxColumns row => Nat.max (length row) maxColumns) 1%nat children.

(** The cells of one row: the first takes the columns the row leaves free. *)
Definition row_cells (maxColumns : nat) (row : list addr) : list Cell :=
  let span := (1 + (maxColumns - length row))%nat in
  match row with
  | [] => []
  | first :: others =>
      {| cell_widget := first; cell_hspan := span |}
        :: map (fun w => {| cell_widget := w; cell_hspan := 1%nat |}) others
  end.

Definition build (w : Window) (index : DialogIndex) : Window * DialogIndex * list ui_call :=
  if negb (isAlive w) || bool_decide (is_Some (m_grid w)) then (w, index, [])
  else
    let index := if bool_decide (id w ≠ "") then <[id w := this w]> index else index in
    let maxColumns := maxColumns (Dialog.m_children (layout w)) in
    let grid := {| columns := maxColumns;
                   cells := concat (map (row_cells maxColumns)
                                        (Dialog.m_children (layout w))) |} in
    ({| this := this w; id := id w; isAlive := isAlive w; isVisible := true;
        close_handlers := S (close_handlers w);
        m_scriptFileName := m_scriptFileName w;
        m_grid := Some grid; layout := layout w |},
     index, [OpenWindow (this w)]).

Definition closeWindow (raiseEvent notifyManager : bool) (w : Window) (index : DialogIndex)
  : DialogIndex * list ui_call :=
  let raised := if raiseEvent then [RaiseEvent (m_scriptFileName w) (id w +:+ "_close")]
                else [] in
  let notified := if notifyManager then [ManagerCloseWindow (this w)] else [] in
  (unlist w index, raised ++ notified ++ [Delayed (this w)]).

(** The listener [DialogScriptObject::build] registers with [afterEval];
    [m_widget] is [None] once the dialog has shut down. *)
Definition afterEval_listener (success : bool) (m_widget : option Window) (index : DialogIndex)
  : option Window * DialogIndex * list ui_call :=
  match m_widget with
  | None => (None, index, [])
  | Some dialog =>
      let '(dialog, index, calls) :=
        if success then build dialog index else (dialog, index, []) in
      if negb (isVisible dialog) then
        let '(index, calls') := closeWindow false true dialog index in
        (Some dialog, index, calls ++ calls')
      else (Some dialog, index, calls)
  end.

(** The dialog laid out by a series of [add] and [addBreak] calls. *)
Inductive layout_call : Type :=
| Add (child : Dialog.WidgetScriptObject)
| AddBreak.

Definition layout_step (d : Dialog.Dialog) (c : layout_call) : Dialog.Dialog :=
  match c with
  | Add child => Dialog.add child d
  | AddBreak => Dialog.addBreak d
  end.

Definition laid_out (cs : list layout_call) : Dialog.Dialog :=
  foldl layout_step {| Dialog.m_isInline := false; Dialog.m_children := [] |} cs.

End DialogWindow.

(** A live dialog window, not built, with the layout a series of calls
    gives. *)
Definition sample_window_with (cs : list DialogWindow.layout_call) : DialogWindow.Window :=
  {| DialogWindow.this := 9%N; DialogWindow.id := "main"; DialogWindow.isAlive := true;
     DialogWindow.isVisible := false; DialogWindow.close_handlers := 0;
     DialogWindow.m_scriptFileName := "demo.lua"; DialogWindow.m_grid := None;
     DialogWindow.layout := DialogWindow.laid_out cs |}.

(** A dialog window that has not been built, for the concrete instances. *)
Definition sample_window (this : addr) (id : string) (alive visible : bool)
  : DialogWindow.Window :=
  {| DialogWindow.this := this; DialogWindow.id := id;
     DialogWindow.isAlive := alive; DialogWindow.isVisible := visible;
     DialogWindow.close_handlers := 0; DialogWindow.m_scriptFileName := "demo.lua";
     DialogWindow.m_grid := None;
     DialogWindow.layout := DialogWindow.laid_out [] |}.

(** * Properties *)

(** ** The listener list of script::Engine *)

Section EngineFacts.
Import Engine.

Lemma afterEval_listeners cb e :
  m_afterEvalListeners (afterEval cb e) = m_afterEvalListeners e ++ [cb].
Proof. reflexivity. Qed.

Lemma afterEvalAll_listeners cbs e :
  m_afterEvalListeners (afterEvalAll cbs e) = m_afterEvalListeners e ++ cbs.
Proof.
  revert e. induction cbs as [|cb cbs IH]; intros e.
  - simpl. by rewrite app_nil_r.
  - change (afterEvalAll (cb :: cbs) e) with (afterEvalAll cbs (afterEval cb e)).
    rewrite IH, afterEval_listeners. by rewrite <- app_assoc.
Qed.

Lemma afterEvalAll_scriptObjects cbs e :
  m_scriptObjects (afterEvalAll cbs e) = m_scriptObjects e.
Proof.
  revert e. induction cbs as [|cb cbs IH]; intros e; [done|].
  change (afterEvalAll (cb :: cbs) e) with (afterEvalAll cbs (afterEval cb e)).
  by rewrite IH.
Qed.

Lemma fired_execAfterEval b e : fired (execAfterEval b e) = execAfterEval b e.
Proof.
  unfold execAfterEval, fired.
  induction (m_afterEvalListeners e) as [|l ls IH]; simpl; [done|].
  by rewrite IH.
Qed.

Lemma console_execAfterEval b e : console (execAfterEval b e) = [].
Proof.
  unfold execAfterEval, console.
  induction (m_afterEvalListeners e) as [|l ls IH]; simpl; done.
Qed.

Lemma inits_execAfterEval b e : inits (execAfterEval b e) = [].
Proof.
  unfold execAfterEval, inits.
  induction (m_afterEvalListeners e) as [|l ls IH]; simpl; done.
Qed.

(** Each listener of the list is invoked exactly once by a pass. *)

End EngineFacts.

(** ** LuaEngine::eval, case by case *)

Section LuaEngineFacts.
Import Lua LuaEngine.

Lemma lua_pcall_chunk I code L0 :
  lua_pcall I (push (LChunk code) L0) =
  let r := exec I code (globals L0) in
  let L' := {| stack := stack L0; globals := run_globals r |} in
  match run_end r with
  | Finished => Returned LUA_OK L' (run_listeners r)
  | Raised msg => Returned LUA_ERRRUN (push msg L') (run_listeners r)
  | Thrown what => Threw what L' (run_listeners r)
  end.
Proof.
  unfold lua_pcall, push, with_stack. simpl.
  rewrite reverse_snoc, reverse_involutive. reflexivity.
Qed.


Lemma lua_eval_eq_cases I code e : eval I code e = eval_cases I code e.
Proof.
  unfold eval, eval_cases, luaL_loadstring.
  destruct (parse I (c_str code)) as [msg|]; [reflexivity|].
  change (LUA_OK =? LUA_OK) with true. cbv iota.
  rewrite lua_pcall_chunk. cbv zeta.
  destruct (run_end (exec I (c_str code) (globals (L e)))); reflexivity.
Qed.

(** [eval] never returns true. *)
Lemma lua_eval_ret_false I code e : ret (eval I code e) = false.
Proof.
  rewrite lua_eval_eq_cases. unfold eval_cases.
  destruct (parse I (c_str code)); [reflexivity|].
  cbv zeta. destruct (run_end _); reflexivity.
Qed.


Lemma lua_eval_listeners I code e :
  Engine.m_afterEvalListeners (base (state (eval I code e))) =
  Engine.m_afterEvalListeners (base e) ++ registered I code e.
Proof.
  rewrite lua_eval_eq_cases. unfold eval_cases, registered.
  destruct (parse I (c_str code)); [simpl; by rewrite app_nil_r|].
  cbv zeta. destruct (run_end _); simpl; apply afterEvalAll_listeners.
Qed.

Lemma lua_eval_scriptObjects I code e :
  Engine.m_scriptObjects (base (state (eval I code e))) = Engine.m_scriptObjects (base e).
Proof.
  rewrite lua_eval_eq_cases. unfold eval_cases.
  destruct (parse I (c_str code)); [reflexivity|].
  cbv zeta. destruct (run_end _); simpl; apply afterEvalAll_scriptObjects.
Qed.

(** The listener invocations of an [eval]: one per stored listener, those
    registered during the run included, in order, with the returned flag. *)
Lemma lua_eval_fired I code e :
  fired (trace (eval I code e)) =
  map (fun l => AfterEval l (ret (eval I code e)))
      (Engine.m_afterEvalListeners (base e) ++ registered I code e).
Proof.
  rewrite <- lua_eval_listeners, lua_eval_ret_false.
  rewrite lua_eval_eq_cases. unfold eval_cases.
  destruct (parse I (c_str code)); [apply fired_execAfterEval|].
  cbv zeta. destruct (run_end _); simpl; apply fired_execAfterEval.
Qed.

(** The console messages of an [eval]: only the report of a native
    exception. *)
Lemma lua_eval_console I code e :
  console (trace (eval I code e)) =
  match parse I (c_str code) with
  | Some _ => []
  | None =>
      match run_end (exec I (c_str code) (globals (L e))) with
      | Thrown what => [ConsolePrint (c_str ("Error: " +:+ what))]
      | _ => []
      end
  end.
Proof.
  rewrite lua_eval_eq_cases. unfold eval_cases.
  destruct (parse I (c_str code)); [apply console_execAfterEval|].
  cbv zeta. destruct (run_end _); simpl; by rewrite ?console_execAfterEval.
Qed.

Lemma lua_eval_inits I code e : inits (trace (eval I code e)) = [].
Proof.
  rewrite lua_eval_eq_cases. unfold eval_cases.
  destruct (parse I (c_str code)); [apply inits_execAfterEval|].
  cbv zeta. destruct (run_end _); simpl; apply inits_execAfterEval.
Qed.

End LuaEngineFacts.

(** ** V8Engine::eval, case by case *)

Section V8EngineFacts.
Import V8 V8Engine.

Lemma v8_register_listeners cbs e :
  Engine.m_afterEvalListeners (base (register cbs e)) =
  Engine.m_afterEvalListeners (base e) ++ cbs.
Proof. apply afterEvalAll_listeners. Qed.

Lemma fired_onConsolePrint t : fired [onConsolePrint t] = [].
Proof. by destruct t. Qed.

Lemma inits_onConsolePrint t : inits [onConsolePrint t] = [].
Proof. by destruct t. Qed.

(** How [eval] ends: whenever it returns, it returns false. *)
Lemma v8_eval_ret I reg code e :
  ret (eval I reg code e) =
  if compiles I (c_str code) then
    match run_completion (exec I (c_str code) (ret (initGlobals reg e))) with
    | Thrown _ => Aborts
    | _ => Returns false
    end
  else Aborts.
Proof.
  unfold eval. destruct (compiles I (c_str code)); [|reflexivity].
  cbv zeta. destruct (run_completion _); reflexivity.
Qed.

(** No path through [eval] reaches [execAfterEval]. *)
Lemma v8_eval_fired I reg code e : fired (trace (eval I reg code e)) = [].
Proof.
  unfold eval. destruct (compiles I (c_str code)); [|reflexivity].
  cbv zeta. destruct (run_completion _) as [v|[exc|]|what]; simpl; try reflexivity.
  - destruct (m_printLastResult e); [apply fired_onConsolePrint|reflexivity].
  - apply fired_onConsolePrint.
Qed.

Lemma v8_eval_listeners I reg code e :
  Engine.m_afterEvalListeners (base (state (eval I reg code e))) =
  Engine.m_afterEvalListeners (base e) ++
  (if compiles I (c_str code)
   then run_listeners (exec I (c_str code) (ret (initGlobals reg e))) else []).
Proof.
  unfold eval. destruct (compiles I (c_str code)).
  - cbv zeta. destruct (run_completion _); simpl;
      rewrite afterEvalAll_listeners; reflexivity.
  - simpl. by rewrite app_nil_r.
Qed.

Lemma v8_eval_scriptObjects I reg code e :
  Engine.m_scriptObjects (base (state (eval I reg code e))) = getAllWithFlag reg "global".
Proof.
  unfold eval. destruct (compiles I (c_str code)); [|reflexivity].
  cbv zeta. destruct (run_completion _); simpl;
    rewrite afterEvalAll_scriptObjects; reflexivity.
Qed.

(** Every [eval] starts with [initGlobals], and calls it once. *)
Lemma v8_eval_inits I reg code e :
  exists rest,
    trace (eval I reg code e) = InitGlobals (map globalName (getAllWithFlag reg "global")) :: rest
    /\ inits rest = [].
Proof.
  unfold eval. destruct (compiles I (c_str code)); [|by eexists].
  cbv zeta. destruct (run_completion _) as [v|[exc|]|what]; simpl; eexists; split;
    try reflexivity.
  - destruct (m_printLastResult e); [apply inits_onConsolePrint|reflexivity].
  - apply inits_onConsolePrint.
Qed.

(** The script is run in the context [initGlobals] has filled: interpreters
    that agree there give the same [eval]. *)
Lemma v8_eval_context I I' reg code e :
  compiles I = compiles I' ->
  ToString I = ToString I' ->
  (forall src, exec I src (bindGlobals (getAllWithFlag reg "global") ∅)
               = exec I' src (bindGlobals (getAllWithFlag reg "global") ∅)) ->
  eval I reg code e = eval I' reg code e.
Proof.
  intros Hc Ht Hx. unfold eval, Utf8Value. rewrite Hc, Ht.
  simpl. rewrite Hx. reflexivity.
Qed.

End V8EngineFacts.

(** ** The adapters *)

Lemma c_str_idemp s : c_str (c_str s) = c_str s.
Proof.
  induction s as [|c s IH]; simpl; [done|].
  destruct (Ascii.eqb c Ascii.zero) eqn:E; simpl; [done|].
  by rewrite E, IH.
Qed.


Lemma c_str_no_nul s : no_nul s = true -> c_str s = s.
Proof.
  induction s as [|c s IH]; simpl; [done|].
  destruct (Ascii.eqb c Ascii.zero); simpl; [done|].
  intros H. by rewrite IH.
Qed.

Lemma no_nul_app a b : no_nul (a +:+ b) = no_nul a && no_nul b.
Proof.
  induction a as [|c a IH]; simpl; [done|].
  rewrite IH. by rewrite andb_assoc.
Qed.

Lemma c_str_is_no_nul s : no_nul (c_str s) = true.
Proof.
  induction s as [|c s IH]; simpl; [done|].
  destruct (Ascii.eqb c Ascii.zero) eqn:E; simpl; [done|].
  by rewrite E, IH.
Qed.

Lemma utf8_start_no_nul b :
  Ascii.eqb b Ascii.zero = false ->
  no_nul (fst (utf8_start b)) = true /\
  (forall p, snd (utf8_start b) = Some p -> no_nul (seen p) = true).
Proof.
  intros Hb. unfold utf8_start.
  repeat (match goal with |- context [if ?c then _ else _] => destruct c end);
    simpl; rewrite ?Hb; split; try done; intros p [= <-]; simpl; by rewrite Hb.
Qed.

(** Repairing puts no NUL into a text that has none. *)
Lemma utf8_repair_from_no_nul s :
  forall st,
    no_nul s = true ->
    (forall p, st = Some p -> no_nul (seen p) = true) ->
    no_nul (utf8_repair_from st s) = true.
Proof.
  induction s as [|b s IH]; intros st Hs Hst.
  - simpl. by destruct st.
  - simpl in Hs. apply andb_prop in Hs as [Hb Hs]. apply negb_true_iff in Hb.
    destruct (utf8_start_no_nul b Hb) as [Hout Hpend].
    cbn [utf8_repair_from]. destruct st as [p|].
    + destruct ((lower p <=? N_of_ascii b) && (N_of_ascii b <=? upper p))%N.
      * assert (Hseen : no_nul (seen p +:+ String b EmptyString) = true).
        { rewrite no_nul_app, (Hst p eq_refl). simpl. by rewrite Hb. }
        destruct (needed p) as [|[|k]].
        -- rewrite no_nul_app, Hseen. simpl. by apply IH.
        -- rewrite no_nul_app, Hseen. simpl. by apply IH.
        -- apply IH; [done|]. by intros p' [= <-].
      * destruct (utf8_start b) as [out st'] eqn:E. simpl in Hout, Hpend.
        rewrite !no_nul_app, Hout. simpl. by apply IH.
    + destruct (utf8_start b) as [out st'] eqn:E. simpl in Hout, Hpend.
      rewrite no_nul_app, Hout. simpl. by apply IH.
Qed.

Lemma NewFromUtf8_text_no_nul s : c_str (V8.NewFromUtf8_text s) = V8.NewFromUtf8_text s.
Proof.
  apply c_str_no_nul. apply utf8_repair_from_no_nul; [apply c_str_is_no_nul|done].
Qed.

Lemma append_snoc a b s : (a +:+ String b EmptyString) +:+ s = a +:+ String b s.
Proof.
  induction a as [|c a IH]; [done|].
  change (String c ((a +:+ String b EmptyString) +:+ s) = String c (a +:+ String b s)).
  by rewrite IH.
Qed.

Lemma utf8_start_ascii b :
  (N_of_ascii b <=? 127)%N = true -> utf8_start b = (String b EmptyString, None).
Proof. intros H. unfold utf8_start. by rewrite H. Qed.

Lemma utf8_start_pending b p :
  snd (utf8_start b) = Some p ->
  utf8_start b = (EmptyString, Some p) /\ seen p = String b EmptyString /\ (0 < lower p)%N.
Proof.
  unfold utf8_start.
  repeat (match goal with |- context [if ?c then _ else _] => destruct c end);
    simpl; intros [= <-]; simpl; repeat split; lia.
Qed.

(** Well-formed text is left as it is. *)
Lemma utf8_repair_from_valid s :
  forall st, utf8_valid_from st s = true -> utf8_repair_from st s = pending_text st +:+ s.
Proof.
  induction s as [|b s IH]; intros st Hv.
  - destruct st; [discriminate Hv|reflexivity].
  - cbn [utf8_valid_from utf8_repair_from] in *. destruct st as [p|].
    + cbv zeta in Hv.
      destruct ((lower p <=? N_of_ascii b) && (N_of_ascii b <=? upper p))%N; [|discriminate Hv].
      destruct (needed p) as [|[|k]].
      * rewrite (IH None Hv). cbn [pending_text].
        change (EmptyString +:+ s) with s. apply append_snoc.
      * rewrite (IH None Hv). cbn [pending_text].
        change (EmptyString +:+ s) with s. apply append_snoc.
      * rewrite (IH _ Hv). cbn [pending_text seen]. apply append_snoc.
    + destruct (N_of_ascii b <=? 127)%N eqn:Ha.
      * rewrite (utf8_start_ascii b Ha), (IH None Hv). reflexivity.
      * destruct (snd (utf8_start b)) as [p|] eqn:Hs; [|discriminate Hv].
        destruct (utf8_start_pending b p Hs) as (Hst & Hseen & _).
        rewrite Hst, (IH _ Hv). cbn [pending_text]. rewrite Hseen. reflexivity.
Qed.

(** A cut at a NUL leaves well-formed text well-formed. *)
Lemma utf8_valid_from_c_str s :
  forall st,
    (forall p, st = Some p -> (0 < lower p)%N) ->
    utf8_valid_from st s = true -> utf8_valid_from st (c_str s) = true.
Proof.
  induction s as [|b s IH]; intros st Hst Hv; [exact Hv|].
  cbn [c_str]. destruct (Ascii.eqb_spec b Ascii.zero) as [->|Hb].
  - destruct st as [p|]; [|reflexivity].
    cbn [utf8_valid_from] in Hv. cbv zeta in Hv.
    specialize (Hst p eq_refl).
    replace (lower p <=? N_of_ascii Ascii.zero)%N with false in Hv
      by (symmetry; apply N.leb_gt; simpl; lia).
    discriminate Hv.
  - cbn [utf8_valid_from] in *. destruct st as [p|].
    + cbv zeta in *.
      destruct ((lower p <=? N_of_ascii b) && (N_of_ascii b <=? upper p))%N; [|discriminate Hv].
      destruct (needed p) as [|[|k]]; apply IH; try done.
      intros p' [= <-]. simpl. lia.
    + destruct (N_of_ascii b <=? 127)%N; [by apply IH|].
      destruct (snd (utf8_start b)) as [p|] eqn:Hs; [|discriminate Hv].
      apply IH; [|exact Hv]. intros p' [= <-].
      by destruct (utf8_start_pending b p Hs) as (_ & _ & Hl).
Qed.

Lemma utf8_repair_well_formed s : well_formed_utf8 s = true -> utf8_repair s = s.
Proof. intros Hw. apply (utf8_repair_from_valid s None Hw). Qed.

Lemma well_formed_c_str s : well_formed_utf8 s = true -> well_formed_utf8 (c_str s) = true.
Proof. apply utf8_valid_from_c_str. discriminate. Qed.

Lemma NewFromUtf8_text_c_str s : V8.NewFromUtf8_text (c_str s) = V8.NewFromUtf8_text s.
Proof. unfold V8.NewFromUtf8_text. by rewrite c_str_idemp. Qed.

(** What V8 reads of well-formed text is that text up to its first NUL. *)
Lemma NewFromUtf8_text_of_well_formed s :
  well_formed_utf8 s = true -> V8.NewFromUtf8_text s = c_str s.
Proof. intros Hw. apply utf8_repair_well_formed. by apply well_formed_c_str. Qed.

Lemma NewFromUtf8_text_well_formed s :
  no_nul s = true -> well_formed_utf8 s = true -> V8.NewFromUtf8_text s = s.
Proof.
  intros Hn Hw. rewrite (NewFromUtf8_text_of_well_formed s Hw). by apply c_str_no_nul.
Qed.

(** The repair on well-formed text of one to four bytes, on a byte that
    starts nothing, a sequence cut short, an overlong form and a surrogate. *)
Example utf8_repair_cases :
  utf8_repair (Sample.bytes [97; 195; 169; 226; 130; 172; 240; 159; 152; 128]%N)
    = Sample.bytes [97; 195; 169; 226; 130; 172; 240; 159; 152; 128]%N /\
  utf8_repair (Sample.bytes [255]%N) = replacement /\
  utf8_repair (Sample.bytes [97; 226; 130; 122]%N)
    = Sample.bytes [97; 239; 191; 189; 122]%N /\
  utf8_repair (Sample.bytes [192; 175]%N) = replacement +:+ replacement /\
  utf8_repair (Sample.bytes [237; 160; 128]%N)
    = replacement +:+ replacement +:+ replacement /\
  utf8_repair (Sample.bytes [226; 130]%N) = replacement.
Proof. vm_compute. repeat split; reflexivity. Qed.

Example double_of_int_cases :
  double_of_int (- 2 ^ 63) = (-9223372036854775808)%float /\
  double_of_int (2 ^ 53 + 1) = 9007199254740992%float /\
  double_of_int (-3) = (-3)%float.
Proof. vm_compute. repeat split; reflexivity. Qed.

Lemma to_int32_small i : - 2^31 <= i < 2^31 -> to_int32 i = i.
Proof. intros H. unfold to_int32. rewrite Z.mod_small; lia. Qed.

Lemma to_int32_range i : - 2^31 <= to_int32 i < 2^31.
Proof.
  unfold to_int32. pose proof (Z.mod_pos_bound (i + 2^31) (2^32)). lia.
Qed.

Section LuaAdapterFacts.
Import Lua LuaScriptObject.

Lemma index2value_pushed v L0 : index2value (push v L0) (lua_gettop L0 + 1) = Some v.
Proof.
  unfold index2value, lua_gettop, push, with_stack. simpl.
  replace (0 <? Z.of_nat (length (stack L0)) + 1) with true by (symmetry; apply Z.ltb_lt; lia).
  replace (Z.to_nat (Z.of_nat (length (stack L0)) + 1 - 1)) with (length (stack L0)) by lia.
  by apply list_lookup_middle.
Qed.

Lemma index2value_above L0 : index2value L0 (lua_gettop L0 + 1) = None.
Proof.
  unfold index2value, lua_gettop.
  replace (0 <? Z.of_nat (length (stack L0)) + 1) with true by (symmetry; apply Z.ltb_lt; lia).
  apply lookup_ge_None. lia.
Qed.


Lemma pushFunctions_table fs L0 st fields :
  pushFunctions fs (with_stack L0 (st ++ [LTable fields])) =
  Some (with_stack L0 (st ++ [LTable (closures callFunc fs fields)])).
Proof.
  revert fields. induction fs as [|[name ptr] fs IH]; intros fields; [done|].
  cbn [pushFunctions].
  unfold lua_pushlightuserdata, push, lua_pushcclosure, with_stack. cbn [stack globals].
  rewrite reverse_snoc. cbn [mbind option_bind].
  unfold lua_setfield_2, with_stack. cbn [stack globals].
  rewrite reverse_involutive, reverse_snoc, reverse_snoc. cbn [mbind option_bind].
  rewrite reverse_involutive. apply IH.
Qed.

Lemma pushProperties_table ps L0 st fields :
  pushProperties ps (with_stack L0 (st ++ [LTable fields])) =
  Some (with_stack L0 (st ++ [LTable (closures getset ps fields)])).
Proof.
  revert fields. induction ps as [|[name ptr] ps IH]; intros fields; [done|].
  cbn [pushProperties].
  unfold lua_pushlightuserdata, push, lua_pushcclosure, with_stack. cbn [stack globals].
  rewrite reverse_snoc. cbn [mbind option_bind].
  unfold lua_setfield_2, with_stack. cbn [stack globals].
  rewrite reverse_involutive, reverse_snoc, reverse_snoc. cbn [mbind option_bind].
  rewrite reverse_involutive. apply IH.
Qed.


(** [makeLocal] never misuses the API: it pushes one table. *)
Lemma makeLocal_pushes so L0 :
  makeLocal so L0 = Some (lua_gettop L0 + 1, push (table_of so) L0).
Proof.
  unfold makeLocal, lua_newtable, push.
  rewrite pushFunctions_table. cbn [mbind option_bind].
  rewrite pushProperties_table. cbn [mbind option_bind].
  unfold lua_gettop, with_stack. cbn [stack]. rewrite length_app. simpl.
  do 3 f_equal. lia.
Qed.

Lemma makeGlobal_binds so name L0 :
  makeGlobal so name L0 =
  Some {| stack := stack L0 ++ [table_of so];
          globals := <[c_str name := table_of so]> (globals L0) |}.
Proof.
  unfold makeGlobal. rewrite makeLocal_pushes. cbn [mbind option_bind].
  unfold lua_pushvalue. rewrite index2value_pushed. cbn [mbind option_bind].
  unfold lua_setglobal, push, with_stack. cbn [stack globals].
  rewrite reverse_snoc. by rewrite reverse_involutive.
Qed.

Lemma lua_getValue_pushed v L0 :
  getValue (push v L0) (lua_gettop L0 + 1) =
  match v with
  | LNil => (UNDEFINED, [])
  | LNumber n => (DOUBLE n, [])
  | LInteger i => (DOUBLE (double_of_int i), [])
  | LBoolean b => (INT (if b then 1 else 0), [])
  | LString s => (STRING (c_str s), [])
  | _ => (UNDEFINED, [])
  end.
Proof.
  unfold getValue, lua_type, lua_tonumber, lua_toboolean, lua_tostring.
  rewrite index2value_pushed. destruct v as [| [] | | | | | | | | | |]; reflexivity.
Qed.

End LuaAdapterFacts.


(** ** The claims about eval and its listeners *)

(** C1. Every listener registered via afterEval is to be invoked once, in
    order, with the success flag, after each eval on every back end.
    [V8Engine::eval] does not do it: whatever the interpreter does with the
    source, a listener registered before the call stays registered and the
    call invokes no listener at all. *)
Theorem V8Engine_eval_invokes_no_listener :
  forall (I : V8Engine.Interp) (reg : registry) (code : string)
         (e : V8Engine.V8Engine) (l : listener),
    let r := V8Engine.eval I reg code (V8Engine.afterEval l e) in
    l ∈ Engine.m_afterEvalListeners (V8Engine.base (state r)) /\
    fired (trace r) = [].
Proof.
  intros I reg code e l r. subst r. split.
  - rewrite v8_eval_listeners. simpl. rewrite !elem_of_app, list_elem_of_singleton. auto.
  - apply v8_eval_fired.
Qed.

Example v8_eval_with_listener :
  let r := V8Engine.eval (Sample.v8 []) Sample.reg "1+1" Sample.v8_engine in
  ret r = V8Engine.Returns false /\ trace r = [InitGlobals ["app"]] /\
  Engine.m_afterEvalListeners (V8Engine.base (state r)) = [1%N].
Proof. vm_compute. repeat split; reflexivity. Qed.

(** What [LuaEngine::eval] does for C1: each stored listener, those
    registered during the run included, is invoked once, in order, with the
    flag that [eval] returns. *)
Lemma LuaEngine_eval_invokes_listeners I code e :
  fired (trace (LuaEngine.eval I code e)) =
  map (fun l => AfterEval l (ret (LuaEngine.eval I code e)))
      (Engine.m_afterEvalListeners (LuaEngine.base (state (LuaEngine.eval I code e)))).
Proof. rewrite lua_eval_listeners. apply lua_eval_fired. Qed.

(** C2. eval of the empty source is to return true and fire afterEval(true).
    [LuaEngine::eval] returns false and hands false to every listener, for
    the empty source as for any other; [V8Engine::eval] invokes no
    listener. *)
Theorem eval_empty_source_reports_no_success :
  forall (I : LuaEngine.Interp) (e : LuaEngine.LuaEngine)
         (J : V8Engine.Interp) (reg : registry) (e' : V8Engine.V8Engine),
    ret (LuaEngine.eval I "" e) = false /\
    fired (trace (LuaEngine.eval I "" e)) =
      map (fun l => AfterEval l false)
          (Engine.m_afterEvalListeners (LuaEngine.base e) ++ LuaEngine.registered I "" e) /\
    fired (trace (V8Engine.eval J reg "" e')) = [].
Proof.
  intros. split; [apply lua_eval_ret_false|]. split; [|apply v8_eval_fired].
  rewrite lua_eval_fired. by rewrite lua_eval_ret_false.
Qed.

Example lua_eval_empty_source :
  let r := LuaEngine.eval (Sample.lua []) "" Sample.lua_engine in
  ret r = false /\ trace r = [AfterEval 1%N false].
Proof. vm_compute. split; reflexivity. Qed.

(** C3. eval of a source that does not compile is to return false, print one
    console message and fire afterEval(false), without anything escaping.
    [LuaEngine::eval] returns false and fires afterEval(false), but prints
    nothing: the parser's message stays on the Lua stack.  [V8Engine::eval]
    does not return: the process is aborted before anything is printed. *)
Theorem eval_syntax_error_prints_nothing :
  forall (I : LuaEngine.Interp) (e : LuaEngine.LuaEngine)
         (J : V8Engine.Interp) (reg : registry) (e' : V8Engine.V8Engine)
         (code : string),
    (forall msg, LuaEngine.parse I (c_str code) = Some msg ->
       ret (LuaEngine.eval I code e) = false /\
       console (trace (LuaEngine.eval I code e)) = [] /\
       fired (trace (LuaEngine.eval I code e)) =
         map (fun l => AfterEval l false) (Engine.m_afterEvalListeners (LuaEngine.base e)) /\
       Lua.stack (LuaEngine.L (state (LuaEngine.eval I code e))) =
         Lua.stack (LuaEngine.L e) ++ [Lua.LString msg]) /\
    (V8Engine.compiles J (c_str code) = false ->
       ret (V8Engine.eval J reg code e') = V8Engine.Aborts /\
       console (trace (V8Engine.eval J reg code e')) = []).
Proof.
  intros I e J reg e' code. split.
  - intros msg HI.
    rewrite lua_eval_console, lua_eval_fired, (lua_eval_eq_cases I code e).
    unfold LuaEngine.registered, LuaEngine.eval_cases. rewrite HI. simpl.
    by rewrite app_nil_r.
  - intros HJ. unfold V8Engine.eval. rewrite HJ. done.
Qed.

Lemma eval_syntax_error_prints_nothing_witness :
  (ret (LuaEngine.eval (Sample.lua ["x ="]) "x =" Sample.lua_engine) = false /\
   console (trace (LuaEngine.eval (Sample.lua ["x ="]) "x =" Sample.lua_engine)) = [] /\
   fired (trace (LuaEngine.eval (Sample.lua ["x ="]) "x =" Sample.lua_engine)) =
     map (fun l => AfterEval l false)
         (Engine.m_afterEvalListeners (LuaEngine.base Sample.lua_engine)) /\
   Lua.stack (LuaEngine.L (state (LuaEngine.eval (Sample.lua ["x ="]) "x =" Sample.lua_engine))) =
     Lua.stack (LuaEngine.L Sample.lua_engine) ++ [Lua.LString "syntax error"]) /\
  (ret (V8Engine.eval (Sample.v8 ["x ="]) Sample.reg "x =" Sample.v8_engine) = V8Engine.Aborts /\
   console (trace (V8Engine.eval (Sample.v8 ["x ="]) Sample.reg "x =" Sample.v8_engine)) = []).
Proof.
  destruct (eval_syntax_error_prints_nothing
              (Sample.lua ["x ="]) Sample.lua_engine (Sample.v8 ["x ="]) Sample.reg
              Sample.v8_engine "x =") as [HL HV].
  split.
  - apply (HL "syntax error"). vm_compute. reflexivity.
  - apply HV. vm_compute. reflexivity.
Defined.

(** [printLastResult] sets a flag that [LuaEngine::eval] never reads. *)
Lemma lua_eval_printLastResult I code e :
  ret (LuaEngine.eval I code (LuaEngine.printLastResult e)) = ret (LuaEngine.eval I code e) /\
  trace (LuaEngine.eval I code (LuaEngine.printLastResult e)) = trace (LuaEngine.eval I code e).
Proof.
  rewrite !lua_eval_eq_cases. unfold LuaEngine.eval_cases. simpl.
  destruct (LuaEngine.parse I (c_str code)); [done|].
  destruct (LuaEngine.run_end _); done.
Qed.

Lemma c_str_error what : c_str ("Error: " +:+ what) = "Error: " +:+ c_str what.
Proof. reflexivity. Qed.

(** C6. With print-last-result enabled, eval of [return 2+2] is to print the
    text of 4.  [LuaEngine::eval] drops the results of the chunk
    ([lua_pcall(L, 0, 0, 0)]) and never looks at [m_printLastResult]: the call
    gives the same trace as without the flag, and no message of it is the
    text 4. *)
Theorem LuaEngine_eval_never_prints_last_result :
  forall (I : LuaEngine.Interp) (e : LuaEngine.LuaEngine),
    let r := LuaEngine.eval I "return 2+2" (LuaEngine.printLastResult e) in
    trace r = trace (LuaEngine.eval I "return 2+2" e) /\
    (ConsolePrint "4" ∉ trace r) /\
    (LuaEngine.run_end (LuaEngine.exec I "return 2+2" (Lua.globals (LuaEngine.L e)))
       = LuaEngine.Finished -> console (trace r) = []).
Proof.
  intros I e r. subst r.
  destruct (lua_eval_printLastResult I "return 2+2" e) as [_ Ht]. rewrite Ht.
  split; [done|]. split.
  - intros Hin.
    assert (Hc : ConsolePrint "4" ∈ console (trace (LuaEngine.eval I "return 2+2" e))).
    { unfold console. apply list_elem_of_In, filter_In. split; [by apply list_elem_of_In|done]. }
    rewrite lua_eval_console in Hc.
    destruct (LuaEngine.parse I _); [by apply elem_of_nil in Hc|].
    destruct (LuaEngine.run_end _); try (by apply elem_of_nil in Hc).
    apply list_elem_of_singleton in Hc. rewrite c_str_error in Hc. discriminate Hc.
  - intros Hfin. rewrite lua_eval_console.
    destruct (LuaEngine.parse I _); [done|].
    change (c_str "return 2+2") with "return 2+2". by rewrite Hfin.
Qed.

Lemma LuaEngine_eval_never_prints_last_result_witness :
  let r := LuaEngine.eval (Sample.lua []) "return 2+2"
             (LuaEngine.printLastResult Sample.lua_engine) in
  trace r = trace (LuaEngine.eval (Sample.lua []) "return 2+2" Sample.lua_engine) /\
  (ConsolePrint "4" ∉ trace r) /\
  console (trace r) = [].
Proof.
  destruct (LuaEngine_eval_never_prints_last_result (Sample.lua []) Sample.lua_engine)
    as (H1 & H2 & H3).
  split; [exact H1|]. split; [exact H2|]. apply H3. vm_compute. reflexivity.
Defined.


(** C7. raiseEvent is to report success and print nothing when no onEvent
    is defined.  [LuaEngine::raiseEvent] is [eval] of the snippet, and
    reports failure whatever the event and whatever the script defines; it
    does print nothing when the snippet runs to its end. *)
Theorem LuaEngine_raiseEvent_returns_false :
  forall (I : LuaEngine.Interp) (event : string) (e : LuaEngine.LuaEngine),
    LuaEngine.raiseEvent I event e = LuaEngine.eval I (LuaEngine.onEvent_snippet event) e /\
    ret (LuaEngine.raiseEvent I event e) = false /\
    (LuaEngine.run_end
       (LuaEngine.exec I (c_str (LuaEngine.onEvent_snippet event)) (Lua.globals (LuaEngine.L e)))
       = LuaEngine.Finished ->
     console (trace (LuaEngine.raiseEvent I event e)) = []).
Proof.
  intros I event e. split; [reflexivity|]. split; [apply lua_eval_ret_false|].
  intros Hfin. unfold LuaEngine.raiseEvent. rewrite lua_eval_console.
  destruct (LuaEngine.parse I _); [done|]. by rewrite Hfin.
Qed.

Lemma LuaEngine_raiseEvent_returns_false_witness :
  ret (LuaEngine.raiseEvent (Sample.lua []) "close" Sample.lua_engine) = false /\
  console (trace (LuaEngine.raiseEvent (Sample.lua []) "close" Sample.lua_engine)) = [].
Proof.
  destruct (LuaEngine_raiseEvent_returns_false (Sample.lua []) "close" Sample.lua_engine)
    as (_ & Hret & Hcon).
  split; [exact Hret|]. apply Hcon. vm_compute. reflexivity.
Defined.

Example raiseEvent_close :
  let r := LuaEngine.raiseEvent (Sample.lua []) "close" Sample.lua_engine in
  ret r = false /\ trace r = [AfterEval 1%N false].
Proof. vm_compute. split; reflexivity. Qed.

(** ** One engine over many calls *)

Lemma step_grows I c e :
  exists more, Session.listeners (Session.step I c e).1 = Session.listeners e ++ more.
Proof.
  destruct c as [cb|code|event|]; unfold Session.listeners; simpl.
  - by exists [cb].
  - eexists. apply lua_eval_listeners.
  - eexists. apply lua_eval_listeners.
  - exists []. by rewrite app_nil_r.
Qed.

(** No call ever removes a listener: the list only grows at its end. *)
Lemma session_grows I cs e :
  exists more, Session.listeners (Session.session I cs e).2 = Session.listeners e ++ more.
Proof.
  revert e. induction cs as [|c cs IH]; intros e; simpl.
  - exists []. by rewrite app_nil_r.
  - destruct (Session.step I c e) as [e1 tr] eqn:Hs.
    destruct (Session.session I cs e1) as [log e2] eqn:Hl. simpl.
    destruct (step_grows I c e) as [m1 H1]. rewrite Hs in H1. simpl in H1.
    destruct (IH e1) as [m2 H2]. rewrite Hl in H2. simpl in H2.
    exists (m1 ++ m2). by rewrite H2, H1, app_assoc.
Qed.

Lemma step_invokes I c e l :
  l ∈ Session.listeners e -> Session.is_evaluation c = true ->
  AfterEval l false ∈ (Session.step I c e).2.
Proof.
  intros Hl Hc.
  assert (H : forall code, AfterEval l false ∈ trace (LuaEngine.eval I code e)).
  { intros code. apply list_elem_of_In.
    apply (proj1 (filter_In is_afterEval _ (trace (LuaEngine.eval I code e)))).
    fold (fired (trace (LuaEngine.eval I code e))).
    rewrite lua_eval_fired, lua_eval_ret_false.
    apply in_map_iff. exists l. split; [done|].
    apply list_elem_of_In, elem_of_app. by left. }
  destruct c; try discriminate; simpl; apply H.
Qed.

(** A listener that is registered is invoked by every later evaluation on
    the same LuaEngine. *)
Lemma session_invokes I cs e l :
  l ∈ Session.listeners e ->
  Forall (fun entry => Session.is_evaluation entry.1 = true -> AfterEval l false ∈ entry.2)
         (Session.session I cs e).1.
Proof.
  revert e. induction cs as [|c cs IH]; intros e Hl; simpl; [constructor|].
  destruct (Session.step I c e) as [e1 tr] eqn:Hs.
  destruct (Session.session I cs e1) as [log e2] eqn:Hlog. simpl.
  constructor.
  - simpl. intros Hc. pose proof (step_invokes I c e l Hl Hc) as H.
    by rewrite Hs in H.
  - specialize (IH e1). rewrite Hlog in IH. apply IH.
    destruct (step_grows I c e) as [more Hm]. rewrite Hs in Hm. simpl in Hm.
    rewrite Hm. apply elem_of_app. by left.
Qed.

(** C10. A listener registered before one evaluation is to be invoked again
    by every later evaluation on the same Engine.  The list does only grow,
    but on a V8Engine no evaluation invokes what it holds: after two
    evaluations a listener registered before the first is still stored and
    was never invoked. *)
Theorem V8Engine_listener_kept_but_never_invoked :
  forall (I : V8Engine.Interp) (reg : registry) (code1 code2 : string)
         (e : V8Engine.V8Engine) (l : listener),
    let r1 := V8Engine.eval I reg code1 (V8Engine.afterEval l e) in
    let r2 := V8Engine.eval I reg code2 (state r1) in
    l ∈ Engine.m_afterEvalListeners (V8Engine.base (state r2)) /\
    (forall b, AfterEval l b ∉ trace r1 ++ trace r2).
Proof.
  intros I reg code1 code2 e l r1 r2. subst r1 r2. split.
  - rewrite !v8_eval_listeners. simpl.
    rewrite !elem_of_app, list_elem_of_singleton. auto.
  - intros b Hin. apply elem_of_app in Hin.
    assert (H : forall tr, fired tr = [] -> AfterEval l b ∉ tr).
    { intros tr Hf Hm. apply list_elem_of_In in Hm.
      assert (Hx : In (AfterEval l b) (fired tr)) by (apply filter_In; by split).
      rewrite Hf in Hx. destruct Hx. }
    destruct Hin as [Hin|Hin]; revert Hin; apply H; apply v8_eval_fired.
Qed.

(** ** initGlobals *)

Lemma foldl_insert_bound {A V : Type} (key : A -> string) (val : A -> V)
    (xs : list A) (m : gmap string V) (x : A) :
  x ∈ xs ->
  exists x', x' ∈ xs /\ key x' = key x /\
    foldl (fun m a => <[key a := val a]> m) m xs !! key x = Some (val x').
Proof.
  induction xs as [|y ys IH] using rev_ind; intros Hx; [by apply elem_of_nil in Hx|].
  rewrite foldl_app. simpl.
  destruct (decide (key y = key x)) as [Heq|Hne].
  - exists y. split; [apply elem_of_app; right; by apply list_elem_of_singleton|].
    split; [done|]. rewrite Heq. apply lookup_insert_eq.
  - apply elem_of_app in Hx as [Hx|Hx].
    + destruct (IH Hx) as (x' & Hin & Hk & Hl).
      exists x'. split; [apply elem_of_app; by left|]. split; [done|].
      by rewrite lookup_insert_ne.
    + apply list_elem_of_singleton in Hx. by subst.
Qed.

Lemma lua_bindGlobals objs L0 :
  LuaEngine.bindGlobals objs L0 =
  Some {| Lua.stack := Lua.stack L0 ++ map (fun f => LuaScriptObject.table_of (instance f)) objs;
          Lua.globals :=
            foldl (fun g f => <[c_str (globalName f) := LuaScriptObject.table_of (instance f)]> g)
                  (Lua.globals L0) objs |}.
Proof.
  revert L0. induction objs as [|f objs IH]; intros L0; simpl.
  - rewrite app_nil_r. by destruct L0.
  - rewrite makeGlobal_binds. cbn [mbind option_bind]. rewrite IH. simpl.
    by rewrite <- app_assoc.
Qed.

Lemma v8_bindGlobals objs g :
  V8Engine.bindGlobals objs g =
  foldl (fun g f =>
           <[V8.NewFromUtf8_text (globalName f) := V8ScriptObject.makeLocal (instance f)]> g)
        g objs.
Proof. reflexivity. Qed.


Lemma lua_new I reg :
  LuaEngine.new I reg =
  Some {| ret := tt;
          state := LuaEngine.constructed I reg;
          trace := [InitGlobals (map globalName (getAllWithFlag reg "global"))] |}.
Proof.
  unfold LuaEngine.new, LuaEngine.initGlobals. cbv zeta.
  rewrite lua_bindGlobals. reflexivity.
Qed.

(** The chunk is run in the globals of the engine's lua_State:
    interpreters that agree there give the same [eval]. *)
Lemma lua_eval_context I I' code e :
  LuaEngine.parse I = LuaEngine.parse I' ->
  (forall src, LuaEngine.exec I src (Lua.globals (LuaEngine.L e))
               = LuaEngine.exec I' src (Lua.globals (LuaEngine.L e))) ->
  LuaEngine.eval I code e = LuaEngine.eval I' code e.
Proof.
  intros Hp Hx. rewrite !lua_eval_eq_cases. unfold LuaEngine.eval_cases.
  rewrite <- Hp, <- Hx. reflexivity.
Qed.

(** [eval] itself binds and unbinds nothing: the globals after it are those
    the run of the chunk left. *)
Lemma lua_eval_globals I code e :
  Lua.globals (LuaEngine.L (state (LuaEngine.eval I code e))) =
  match LuaEngine.parse I (c_str code) with
  | Some _ => Lua.globals (LuaEngine.L e)
  | None => LuaEngine.run_globals (LuaEngine.exec I (c_str code) (Lua.globals (LuaEngine.L e)))
  end.
Proof.
  rewrite lua_eval_eq_cases. unfold LuaEngine.eval_cases.
  destruct (LuaEngine.parse I (c_str code)); [reflexivity|].
  cbv zeta. destruct (LuaEngine.run_end _); reflexivity.
Qed.

(** Every global object is bound in the globals the constructor leaves, under
    its name as a C string. *)
Lemma lua_constructed_bound I reg f :
  f ∈ getAllWithFlag reg "global" ->
  exists f', f' ∈ getAllWithFlag reg "global" /\
    c_str (globalName f') = c_str (globalName f) /\
    Lua.globals (LuaEngine.L (LuaEngine.constructed I reg)) !! c_str (globalName f)
      = Some (LuaScriptObject.table_of (instance f')).
Proof.
  intros Hf. simpl.
  apply (foldl_insert_bound (fun f => c_str (globalName f))
           (fun f => LuaScriptObject.table_of (instance f)) _ _ f Hf).
Qed.

(** C4 as stated fails on the Lua back end: an eval on a constructed
    LuaEngine makes no call of initGlobals. *)
Lemma LuaEngine_eval_calls_no_initGlobals :
  ~ (exists names,
       In (InitGlobals names)
          (trace (LuaEngine.eval (Sample.lua []) "x = 1"
                    (LuaEngine.constructed (Sample.lua []) Sample.reg)))).
Proof.
  intros [names Hin]. vm_compute in Hin. exact Hin.
Qed.

(** C4, amended.  [V8Engine::eval] calls initGlobals once, first thing, in
    the fresh context: the global objects are instantiated, each is bound in
    the context under its name (as V8 reads the C string of the name), and
    the script is evaluated in that context.  [LuaEngine] calls initGlobals
    once, in its constructor, which binds each global object under the C
    string of its name in the Lua state that every later eval runs in: an
    eval runs the chunk in the globals of that state, so the first eval sees
    every global object bound, and the globals it leaves are those the chunk
    left; the eval neither calls initGlobals nor touches the instantiated
    objects. *)
Theorem initGlobals_per_backend :
  forall (J : V8Engine.Interp) (I : LuaEngine.Interp) (reg : registry),
    let objs := getAllWithFlag reg "global" in
    (forall code e,
       (exists rest,
          trace (V8Engine.eval J reg code e) = InitGlobals (map globalName objs) :: rest
          /\ inits rest = []) /\
       Engine.m_scriptObjects (V8Engine.base (state (V8Engine.eval J reg code e))) = objs /\
       (forall f, f ∈ objs ->
          exists f', f' ∈ objs /\
            V8.NewFromUtf8_text (globalName f') = V8.NewFromUtf8_text (globalName f) /\
            ret (V8Engine.initGlobals reg e) !! V8.NewFromUtf8_text (globalName f)
              = Some (V8ScriptObject.makeLocal (instance f'))) /\
       (forall J',
          V8Engine.compiles J = V8Engine.compiles J' ->
          V8Engine.ToString J = V8Engine.ToString J' ->
          (forall src, V8Engine.exec J src (ret (V8Engine.initGlobals reg e))
                       = V8Engine.exec J' src (ret (V8Engine.initGlobals reg e))) ->
          V8Engine.eval J reg code e = V8Engine.eval J' reg code e)) /\
    (LuaEngine.new I reg =
       Some {| ret := tt; state := LuaEngine.constructed I reg;
               trace := [InitGlobals (map globalName objs)] |} /\
     Engine.m_scriptObjects (LuaEngine.base (LuaEngine.constructed I reg)) = objs /\
     (forall f, f ∈ objs ->
        exists f', f' ∈ objs /\ c_str (globalName f') = c_str (globalName f) /\
          Lua.globals (LuaEngine.L (LuaEngine.constructed I reg)) !! c_str (globalName f)
            = Some (LuaScriptObject.table_of (instance f'))) /\
     (forall code I',
        LuaEngine.parse I = LuaEngine.parse I' ->
        (forall src g,
           (forall f, f ∈ objs ->
              exists f', f' ∈ objs /\ c_str (globalName f') = c_str (globalName f) /\
                g !! c_str (globalName f) = Some (LuaScriptObject.table_of (instance f'))) ->
           LuaEngine.exec I src g = LuaEngine.exec I' src g) ->
        LuaEngine.eval I code (LuaEngine.constructed I reg)
          = LuaEngine.eval I' code (LuaEngine.constructed I reg))) /\
    (forall code e,
       inits (trace (LuaEngine.eval I code e)) = [] /\
       Engine.m_scriptObjects (LuaEngine.base (state (LuaEngine.eval I code e)))
         = Engine.m_scriptObjects (LuaEngine.base e) /\
       (forall I',
          LuaEngine.parse I = LuaEngine.parse I' ->
          (forall src, LuaEngine.exec I src (Lua.globals (LuaEngine.L e))
                       = LuaEngine.exec I' src (Lua.globals (LuaEngine.L e))) ->
          LuaEngine.eval I code e = LuaEngine.eval I' code e) /\
       Lua.globals (LuaEngine.L (state (LuaEngine.eval I code e))) =
         match LuaEngine.parse I (c_str code) with
         | Some _ => Lua.globals (LuaEngine.L e)
         | None =>
             LuaEngine.run_globals
               (LuaEngine.exec I (c_str code) (Lua.globals (LuaEngine.L e)))
         end).
Proof.
  intros J I reg objs. split; [|split].
  - intros code e. split; [apply v8_eval_inits|]. split; [apply v8_eval_scriptObjects|].
    split.
    + intros f Hf. simpl. rewrite v8_bindGlobals.
      apply (foldl_insert_bound (fun f => V8.NewFromUtf8_text (globalName f))
               (fun f => V8ScriptObject.makeLocal (instance f)) objs ∅ f Hf).
    + intros J' Hc Ht Hx. by apply v8_eval_context.
  - split; [apply lua_new|]. split; [done|].
    split; [intros f Hf; by apply lua_constructed_bound|].
    intros code I' Hp Hx. apply lua_eval_context; [exact Hp|].
    intros src. apply Hx. intros f Hf. by apply lua_constructed_bound.
  - intros code e. split; [apply lua_eval_inits|]. split; [apply lua_eval_scriptObjects|].
    split; [intros I' Hp Hx; by apply lua_eval_context|apply lua_eval_globals].
Qed.

Lemma initGlobals_per_backend_witness :
  (exists f', f' ∈ getAllWithFlag Sample.reg "global" /\
     V8.NewFromUtf8_text (globalName f') = "app" /\
     ret (V8Engine.initGlobals Sample.reg Sample.v8_engine) !! "app"
       = Some (V8ScriptObject.makeLocal (instance f'))) /\
  V8Engine.eval (Sample.v8 []) Sample.reg "1+1" Sample.v8_engine
    = V8Engine.eval Sample.v8_needs_app Sample.reg "1+1" Sample.v8_engine /\
  (exists f', f' ∈ getAllWithFlag Sample.reg "global" /\ c_str (globalName f') = "app" /\
     Lua.globals (LuaEngine.L (LuaEngine.constructed (Sample.lua []) Sample.reg)) !! "app"
       = Some (LuaScriptObject.table_of (instance f'))) /\
  LuaEngine.eval (Sample.lua []) "x = 1" (LuaEngine.constructed (Sample.lua []) Sample.reg)
    = LuaEngine.eval Sample.lua_needs_app "x = 1" (LuaEngine.constructed (Sample.lua []) Sample.reg).
Proof.
  destruct (initGlobals_per_backend (Sample.v8 []) (Sample.lua []) Sample.reg)
    as (HV & (_ & _ & HL & HLctx) & _).
  destruct (HV "1+1" Sample.v8_engine) as (_ & _ & Hbound & Hctx).
  split; [|split; [|split]].
  - apply (Hbound {| flags := ["global"]; globalName := "app"; instance := Sample.app |}).
    vm_compute. left.
  - apply (Hctx Sample.v8_needs_app); [reflexivity|reflexivity|].
    intros src. vm_compute. reflexivity.
  - apply (HL {| flags := ["global"]; globalName := "app"; instance := Sample.app |}).
    vm_compute. left.
  - apply (HLctx "x = 1" Sample.lua_needs_app); [reflexivity|].
    intros src g Hg.
    destruct (Hg {| flags := ["global"]; globalName := "app"; instance := Sample.app |})
      as (f' & _ & _ & Happ); [vm_compute; left|].
    change (c_str (globalName {| flags := ["global"]; globalName := "app";
                                 instance := Sample.app |})) with "app" in Happ.
    unfold Sample.lua_needs_app. cbn [LuaEngine.exec].
    rewrite bool_decide_eq_true_2; [reflexivity|]. by rewrite Happ.
Defined.

(** ** Values across the boundary *)

(** C5 as stated fails on both back ends: an INT that needs more than 32
    bits and an OBJECT do not come back, nor does a STRING with a NUL in it;
    through Lua an INT is not an INT any more, through V8 a STRING that is
    not UTF-8 is not the same STRING. *)
Lemma roundtrip_loses_int_string_and_object :
  LuaScriptObject.roundtrip Sample.objects LuaEngine.luaL_newstate (INT 4294967296)
    <> Some (INT 4294967296) /\
  LuaScriptObject.roundtrip Sample.objects LuaEngine.luaL_newstate (INT 7)
    <> Some (INT 7) /\
  LuaScriptObject.roundtrip Sample.objects LuaEngine.luaL_newstate (STRING Sample.text_with_nul)
    <> Some (STRING Sample.text_with_nul) /\
  LuaScriptObject.roundtrip Sample.objects LuaEngine.luaL_newstate (OBJECT 5%N)
    <> Some (OBJECT 5%N) /\
  fst <$> V8ScriptObject.roundtrip Sample.objects (INT 4294967296)
    <> Some (INT 4294967296) /\
  fst <$> V8ScriptObject.roundtrip Sample.objects (STRING Sample.text_with_nul)
    <> Some (STRING Sample.text_with_nul) /\
  fst <$> V8ScriptObject.roundtrip Sample.objects (STRING Sample.ill_formed)
    <> Some (STRING Sample.ill_formed) /\
  fst <$> V8ScriptObject.roundtrip Sample.objects (OBJECT 5%N)
    <> Some (OBJECT 5%N).
Proof.
  repeat split; vm_compute; discriminate.
Qed.

Example lua_roundtrip_int_wraps :
  LuaScriptObject.roundtrip Sample.objects LuaEngine.luaL_newstate (INT 4294967303)
  = Some (DOUBLE 7).
Proof. vm_compute. reflexivity. Qed.

Example v8_roundtrip_object :
  V8ScriptObject.roundtrip Sample.objects (OBJECT 5%N)
  = Some (UNDEFINED, ["Unknown type: [object]" +:+ V8ScriptObject.newline]).
Proof. vm_compute. reflexivity. Qed.

Example v8_roundtrip_ill_formed :
  V8ScriptObject.roundtrip Sample.objects (STRING Sample.ill_formed)
  = Some (STRING replacement, []).
Proof. vm_compute. reflexivity. Qed.

(** C5, amended.  Through either adapter UNDEFINED comes back as UNDEFINED
    and a DOUBLE as the same DOUBLE.  A STRING comes back as the STRING of
    its text up to the first NUL, through V8 with every ill-formed part of
    that text replaced by U+FFFD: the same STRING when it holds no NUL and,
    through V8, is well-formed UTF-8.  An INT comes back as a number, the
    integer narrowed to 32 bits: through Lua as a DOUBLE, through V8 as an
    INT or a DOUBLE.  An OBJECT never comes back: a null or live object
    reference gives UNDEFINED, V8 logging the unknown type. *)
Theorem roundtrip_by_kind :
  forall (h : heap) (L0 : Lua.lua_State),
    (LuaScriptObject.roundtrip h L0 UNDEFINED = Some UNDEFINED /\
     (forall d, LuaScriptObject.roundtrip h L0 (DOUBLE d) = Some (DOUBLE d)) /\
     (forall s, LuaScriptObject.roundtrip h L0 (STRING s) = Some (STRING (c_str s))) /\
     (forall s, no_nul s = true ->
        LuaScriptObject.roundtrip h L0 (STRING s) = Some (STRING s)) /\
     (forall i, LuaScriptObject.roundtrip h L0 (INT i)
                = Some (DOUBLE (double_of_int (to_int32 i)))) /\
     (forall i, - 2^31 <= i < 2^31 ->
        LuaScriptObject.roundtrip h L0 (INT i) = Some (DOUBLE (double_of_int i))) /\
     LuaScriptObject.roundtrip h L0 (OBJECT nullptr) = Some UNDEFINED /\
     (forall p so, p <> nullptr -> h !! p = Some so ->
        LuaScriptObject.roundtrip h L0 (OBJECT p) = Some UNDEFINED)) /\
    (V8ScriptObject.roundtrip h UNDEFINED = Some (UNDEFINED, []) /\
     (forall d, V8ScriptObject.roundtrip h (DOUBLE d) = Some (DOUBLE d, [])) /\
     (forall s, V8ScriptObject.roundtrip h (STRING s)
                = Some (STRING (utf8_repair (c_str s)), [])) /\
     (forall s, well_formed_utf8 s = true ->
        V8ScriptObject.roundtrip h (STRING s) = Some (STRING (c_str s), [])) /\
     (forall s, no_nul s = true -> well_formed_utf8 s = true ->
        V8ScriptObject.roundtrip h (STRING s) = Some (STRING s, [])) /\
     (forall i, exists v,
        V8ScriptObject.roundtrip h (INT i) = Some (v, []) /\
        (v = INT (to_int32 i) \/ v = DOUBLE (double_of_int (to_int32 i)))) /\
     (forall i, - 2^31 <= i < 2^31 -> exists v,
        V8ScriptObject.roundtrip h (INT i) = Some (v, []) /\
        (v = INT i \/ v = DOUBLE (double_of_int i))) /\
     V8ScriptObject.roundtrip h (OBJECT nullptr) = Some (UNDEFINED, []) /\
     (forall p so, p <> nullptr -> h !! p = Some so ->
        V8ScriptObject.roundtrip h (OBJECT p)
        = Some (UNDEFINED, ["Unknown type: [object]" +:+ V8ScriptObject.newline]))).
Proof.
  intros h L0.
  assert (HS : forall s, LuaScriptObject.roundtrip h L0 (STRING s) = Some (STRING (c_str s))).
  { intros s. unfold LuaScriptObject.roundtrip. simpl.
    unfold Lua.lua_pushstring. rewrite lua_getValue_pushed. simpl. by rewrite c_str_idemp. }
  assert (HI : forall i, LuaScriptObject.roundtrip h L0 (INT i)
                         = Some (DOUBLE (double_of_int (to_int32 i)))).
  { intros i. unfold LuaScriptObject.roundtrip. simpl.
    unfold Lua.lua_pushinteger. by rewrite lua_getValue_pushed. }
  assert (VS : forall s, V8ScriptObject.roundtrip h (STRING s)
                         = Some (STRING (utf8_repair (c_str s)), [])).
  { intros s. unfold V8ScriptObject.roundtrip. simpl.
    unfold V8ScriptObject.getValue, of_cstr. simpl.
    rewrite NewFromUtf8_text_no_nul. reflexivity. }
  assert (VI : forall i, V8ScriptObject.roundtrip h (INT i)
                         = Some (DOUBLE (double_of_int (to_int32 i)), [])) by done.
  split.
  - split.
    { unfold LuaScriptObject.roundtrip. simpl.
      unfold LuaScriptObject.getValue, Lua.lua_type. by rewrite index2value_above. }
    split.
    { intros d. unfold LuaScriptObject.roundtrip. simpl.
      unfold Lua.lua_pushnumber. by rewrite lua_getValue_pushed. }
    split; [exact HS|].
    split; [intros s Hs; by rewrite HS, c_str_no_nul|].
    split; [exact HI|].
    split; [intros i Hi; by rewrite HI, to_int32_small|].
    split.
    { unfold LuaScriptObject.roundtrip. simpl.
      unfold LuaScriptObject.getValue, Lua.lua_type. by rewrite index2value_above. }
    intros p so Hp Hso. unfold LuaScriptObject.roundtrip, LuaScriptObject.returnValue.
    destruct (N.eqb_spec p nullptr) as [|_]; [done|].
    rewrite Hso. cbn [mbind option_bind]. rewrite makeLocal_pushes.
    cbn [mbind option_bind]. by rewrite lua_getValue_pushed.
  - split; [done|]. split; [done|]. split; [exact VS|].
    split.
    { intros s Hw. rewrite VS.
      fold (V8.NewFromUtf8_text s). by rewrite NewFromUtf8_text_of_well_formed. }
    split.
    { intros s Hs Hw. rewrite VS.
      fold (V8.NewFromUtf8_text s). by rewrite NewFromUtf8_text_well_formed. }
    split; [intros i; eexists; split; [apply VI|by right]|].
    split.
    { intros i Hi. eexists. split; [apply VI|]. right. by rewrite to_int32_small. }
    split; [done|].
    intros p so Hp Hso. unfold V8ScriptObject.roundtrip, V8ScriptObject.returnValue.
    destruct (N.eqb_spec p nullptr) as [|_]; [done|].
    rewrite Hso. reflexivity.
Qed.

Lemma roundtrip_by_kind_witness :
  LuaScriptObject.roundtrip Sample.objects LuaEngine.luaL_newstate (STRING "abc")
    = Some (STRING "abc") /\
  LuaScriptObject.roundtrip Sample.objects LuaEngine.luaL_newstate (INT (-3))
    = Some (DOUBLE (double_of_int (-3))) /\
  LuaScriptObject.roundtrip Sample.objects LuaEngine.luaL_newstate (OBJECT 5%N)
    = Some UNDEFINED /\
  V8ScriptObject.roundtrip Sample.objects (STRING "abc") = Some (STRING "abc", []) /\
  V8ScriptObject.roundtrip Sample.objects (STRING Sample.text_with_nul)
    = Some (STRING "a", []) /\
  (exists v, V8ScriptObject.roundtrip Sample.objects (INT (-3)) = Some (v, []) /\
     (v = INT (-3) \/ v = DOUBLE (double_of_int (-3)))) /\
  V8ScriptObject.roundtrip Sample.objects (OBJECT 5%N)
    = Some (UNDEFINED, ["Unknown type: [object]" +:+ V8ScriptObject.newline]).
Proof.
  destruct (roundtrip_by_kind Sample.objects LuaEngine.luaL_newstate)
    as ((_ & _ & _ & Ls & _ & Li & _ & Lo) & (_ & _ & _ & Vc & Vs & _ & Vi & _ & Vo)).
  split; [apply Ls; reflexivity|].
  split; [apply Li; lia|].
  split; [apply (Lo 5%N Sample.app); [discriminate|reflexivity]|].
  split; [apply Vs; reflexivity|].
  split; [apply (Vc Sample.text_with_nul); reflexivity|].
  split; [apply Vi; lia|].
  apply (Vo 5%N Sample.app); [discriminate|reflexivity].
Defined.

(** C8 as stated fails on the Lua adapter: for a table it yields UNDEFINED
    and logs nothing. *)
Lemma lua_getValue_logs_nothing :
  let L0 := {| Lua.stack := [Lua.LTable []]; Lua.globals := ∅ |} in
  (LuaScriptObject.getValue L0 1).1 = UNDEFINED /\
  ~ (exists msg, In msg (LuaScriptObject.getValue L0 1).2).
Proof.
  split; [reflexivity|]. intros [msg Hin]. exact Hin.
Qed.

(** C8, amended.  For a value of a kind without Value equivalent both
    adapters yield UNDEFINED.  The V8 adapter logs one line naming the
    JavaScript type of the value; the Lua adapter logs nothing. *)
Theorem getValue_unknown_kind :
  (forall local : V8.v8_value,
     V8.IsNullOrUndefined local = false -> V8.IsString local = false ->
     V8.IsNumber local = false -> V8.IsBoolean local = false ->
     V8ScriptObject.getValue local =
       (UNDEFINED, ["Unknown type: [" +:+ V8.TypeOf local +:+ "]" +:+ V8ScriptObject.newline])) /\
  (forall (L0 : Lua.lua_State) (index : Z),
     Lua.lua_type L0 index <> Lua.LUA_TNIL -> Lua.lua_type L0 index <> Lua.LUA_TNUMBER ->
     Lua.lua_type L0 index <> Lua.LUA_TBOOLEAN -> Lua.lua_type L0 index <> Lua.LUA_TSTRING ->
     LuaScriptObject.getValue L0 index = (UNDEFINED, [])).
Proof.
  split.
  - intros local H1 H2 H3 H4. unfold V8ScriptObject.getValue.
    rewrite H1, H2, H3, H4.
    destruct local; try discriminate; reflexivity.
  - intros L0 index H1 H2 H3 H4. unfold LuaScriptObject.getValue.
    apply Z.eqb_neq in H1, H2, H3, H4. by rewrite H1, H2, H3, H4.
Qed.

Lemma getValue_unknown_kind_witness :
  V8ScriptObject.getValue (V8.VSymbol 1%N) =
    (UNDEFINED, ["Unknown type: [symbol]" +:+ V8ScriptObject.newline]) /\
  LuaScriptObject.getValue {| Lua.stack := [Lua.LUserdata 9%N]; Lua.globals := ∅ |} 1
    = (UNDEFINED, []).
Proof.
  destruct getValue_unknown_kind as [HV HL]. split.
  - apply (HV (V8.VSymbol 1%N)); reflexivity.
  - apply HL; vm_compute; discriminate.
Defined.

(** ** The type name of a sub-object *)

Section TypeNames.
Import Dialog DialogScriptObject.

Lemma tolower_idemp c : tolower (tolower c) = tolower c.
Proof. destruct c as [[] [] [] [] [] [] [] []]; reflexivity. Qed.

Lemma string_to_lower_idemp s : string_to_lower (string_to_lower s) = string_to_lower s.
Proof. induction s as [|c s IH]; simpl; [done|]. by rewrite tolower_idemp, IH. Qed.

Lemma string_to_lower_empty s : string_to_lower s = "" <-> s = "".
Proof. destruct s; simpl; split; intros H; done. Qed.

Lemma cleanType_lower type : cleanType (string_to_lower type) = cleanType type.
Proof. unfold cleanType. by rewrite string_to_lower_idemp. Qed.

(** Only the letters of the name are looked at, not their case. *)
Lemma add_lower reg type id d : add reg (string_to_lower type) id d = add reg type id d.
Proof.
  unfold add. rewrite cleanType_lower, string_to_lower_idemp.
  destruct type; reflexivity.
Qed.

(** The registry is consulted under the normalized key and nowhere else. *)
Lemma add_key reg reg' type id d :
  reg !! cleanType type = reg' !! cleanType type ->
  add reg type id d = add reg' type id d.
Proof. intros H. unfold add. by rewrite H. Qed.

End TypeNames.

Section Widgets.
Import Dialog DialogScriptObject.

Lemma emplace_lookup k w (m : gmap string WidgetScriptObject) k' :
  emplace k w m !! k' =
  match m !! k' with
  | Some old => Some old
  | None => if decide (k = k') then Some w else None
  end.
Proof.
  unfold emplace. destruct (m !! k) as [old|] eqn:Hk.
  - destruct (m !! k') as [old'|] eqn:Hk'; [done|].
    destruct (decide (k = k')) as [->|]; [congruence|done].
  - destruct (decide (k = k')) as [->|Hne].
    + by rewrite lookup_insert_eq, Hk.
    + rewrite lookup_insert_ne by done. by destruct (m !! k').
Qed.

Lemma add_accepts reg type id d widget :
  type <> "" -> get id d = None -> reg !! cleanType type = Some widget ->
  DialogScriptObject.add reg type id d =
  let cleanId := if bool_decide (id ≠ "") then id
                 else string_to_lower type +:+ to_string (m_nextWidgetId d) in
  (Some (set_id cleanId widget),
   {| m_widgets := emplace cleanId (set_id cleanId widget) (m_widgets d);
      m_nextWidgetId := if bool_decide (id ≠ "") then m_nextWidgetId d
                        else ((m_nextWidgetId d + 1) mod 2 ^ 32)%N;
      m_widget := Dialog.add widget (m_widget d) |}).
Proof.
  intros Ht Hg Hr. unfold DialogScriptObject.add.
  rewrite (bool_decide_eq_false_2 (type = "")) by done.
  rewrite (bool_decide_eq_false_2 (is_Some (get id d)))
    by (rewrite Hg; apply is_Some_None).
  simpl. rewrite Hr. by destruct (bool_decide (id ≠ "")).
Qed.

Lemma add_taken reg type id d :
  is_Some (get id d) -> DialogScriptObject.add reg type id d = (None, d).
Proof.
  intros H. unfold DialogScriptObject.add.
  rewrite (bool_decide_eq_true_2 _ H). by rewrite orb_true_r.
Qed.

End Widgets.

(** C9. The factory lookup of [DialogScriptObject::add] lower-cases the whole
    type name, upper-cases its first character and appends
    [WidgetScriptObject]; the registry is consulted under that key only and
    the widget registered there is the one that is made and returned (none
    when nothing is registered there), so the case of the requested name
    does not matter, and [lAbEl] is resolved as [Label] is: both to the
    widget registered under [LabelWidgetScriptObject]. *)
Theorem add_normalizes_type_name :
  (forall c rest,
     DialogScriptObject.cleanType (String c rest) =
     String (toupper (tolower c)) (string_to_lower rest) +:+ "WidgetScriptObject") /\
  (forall reg reg' type id d,
     reg !! DialogScriptObject.cleanType type = reg' !! DialogScriptObject.cleanType type ->
     DialogScriptObject.add reg type id d = DialogScriptObject.add reg' type id d) /\
  (forall reg type id d widget,
     type <> "" -> DialogScriptObject.get id d = None ->
     reg !! DialogScriptObject.cleanType type = Some widget ->
     let cleanId :=
       if bool_decide (id ≠ "") then id
       else string_to_lower type +:+ to_string (DialogScriptObject.m_nextWidgetId d) in
     fst (DialogScriptObject.add reg type id d) = Some (Dialog.set_id cleanId widget) /\
     DialogScriptObject.m_widget (snd (DialogScriptObject.add reg type id d))
       = Dialog.add widget (DialogScriptObject.m_widget d) /\
     (id <> "" ->
      DialogScriptObject.get id (snd (DialogScriptObject.add reg type id d))
        = Some (Dialog.set_id id widget))) /\
  (forall reg type id d,
     reg !! DialogScriptObject.cleanType type = None ->
     DialogScriptObject.add reg type id d = (None, d)) /\
  (forall reg type type' id d,
     string_to_lower type = string_to_lower type' ->
     DialogScriptObject.cleanType type = DialogScriptObject.cleanType type' /\
     DialogScriptObject.add reg type id d = DialogScriptObject.add reg type' id d) /\
  DialogScriptObject.cleanType "lAbEl" = "LabelWidgetScriptObject" /\
  DialogScriptObject.cleanType "Label" = "LabelWidgetScriptObject" /\
  (forall reg id d,
     DialogScriptObject.add reg "lAbEl" id d = DialogScriptObject.add reg "Label" id d) /\
  (forall reg id d widget,
     id <> "" -> DialogScriptObject.get id d = None ->
     reg !! "LabelWidgetScriptObject" = Some widget ->
     fst (DialogScriptObject.add reg "lAbEl" id d) = Some (Dialog.set_id id widget) /\
     fst (DialogScriptObject.add reg "Label" id d) = Some (Dialog.set_id id widget)).
Proof.
  assert (Hres : forall reg type id d widget,
     type <> "" -> DialogScriptObject.get id d = None ->
     reg !! DialogScriptObject.cleanType type = Some widget ->
     let cleanId :=
       if bool_decide (id ≠ "") then id
       else string_to_lower type +:+ to_string (DialogScriptObject.m_nextWidgetId d) in
     fst (DialogScriptObject.add reg type id d) = Some (Dialog.set_id cleanId widget) /\
     DialogScriptObject.m_widget (snd (DialogScriptObject.add reg type id d))
       = Dialog.add widget (DialogScriptObject.m_widget d) /\
     (id <> "" ->
      DialogScriptObject.get id (snd (DialogScriptObject.add reg type id d))
        = Some (Dialog.set_id id widget))).
  { intros reg type id d widget Ht Hg Hr cleanId. subst cleanId.
    rewrite (add_accepts reg type id d widget Ht Hg Hr). cbv zeta. cbn [fst snd].
    split; [reflexivity|]. split; [reflexivity|].
    intros Hid. rewrite (bool_decide_eq_true_2 (id ≠ "")) by done.
    unfold DialogScriptObject.get in *. cbn [DialogScriptObject.m_widgets].
    rewrite emplace_lookup, Hg. by destruct (decide (id = id)). }
  split; [reflexivity|]. split; [apply add_key|]. split; [exact Hres|].
  split.
  { intros reg type id d Hr. unfold DialogScriptObject.add. rewrite Hr.
    by destruct (_ || _). }
  assert (H : forall reg type type' id d,
             string_to_lower type = string_to_lower type' ->
             DialogScriptObject.cleanType type = DialogScriptObject.cleanType type' /\
             DialogScriptObject.add reg type id d = DialogScriptObject.add reg type' id d).
  { intros reg type type' id d Heq. split.
    - unfold DialogScriptObject.cleanType. by rewrite Heq.
    - rewrite <- (add_lower reg type), <- (add_lower reg type'). by rewrite Heq. }
  split; [exact H|]. split; [reflexivity|]. split; [reflexivity|].
  split; [intros reg id d; by apply H|].
  intros reg id d widget Hid Hg Hr.
  assert (Hl : fst (DialogScriptObject.add reg "lAbEl" id d) = Some (Dialog.set_id id widget)).
  { destruct (Hres reg "lAbEl" id d widget) as [Hfst _]; [done|done|exact Hr|].
    by rewrite (bool_decide_eq_true_2 (id ≠ "")) in Hfst. }
  split; [exact Hl|]. rewrite <- Hl.
  by rewrite (proj2 (H reg "lAbEl" "Label" id d eq_refl)).
Qed.

Lemma add_normalizes_type_name_witness :
  DialogScriptObject.add
    {[ "LabelWidgetScriptObject" := Dialog.mkWidget Dialog.Inherit 3%N "" ]}
    "LABEL" "title"
    (DialogScriptObject.mkDialogScriptObject ∅ 0 (Dialog.mkDialog false []))
  = DialogScriptObject.add
      (<[ "ButtonWidgetScriptObject" := Dialog.mkWidget Dialog.Inline 4%N "" ]>
         {[ "LabelWidgetScriptObject" := Dialog.mkWidget Dialog.Inherit 3%N "" ]})
      "label" "title"
      (DialogScriptObject.mkDialogScriptObject ∅ 0 (Dialog.mkDialog false [])) /\
  fst (DialogScriptObject.add
         {[ "LabelWidgetScriptObject" := Dialog.mkWidget Dialog.Inherit 3%N "" ]}
         "lAbEl" "title"
         (DialogScriptObject.mkDialogScriptObject ∅ 0 (Dialog.mkDialog false [])))
  = Some (Dialog.mkWidget Dialog.Inherit 3%N "title") /\
  DialogScriptObject.add
    {[ "ButtonWidgetScriptObject" := Dialog.mkWidget Dialog.Inline 4%N "" ]}
    "lAbEl" "title"
    (DialogScriptObject.mkDialogScriptObject ∅ 0 (Dialog.mkDialog false []))
  = (None, DialogScriptObject.mkDialogScriptObject ∅ 0 (Dialog.mkDialog false [])).
Proof.
  destruct add_normalizes_type_name as (_ & Hkey & _ & Hnone & Hcase & _ & _ & _ & Hlabel).
  split; [|split].
  - etransitivity.
    + apply (Hkey _ (<[ "ButtonWidgetScriptObject" := Dialog.mkWidget Dialog.Inline 4%N "" ]>
                       {[ "LabelWidgetScriptObject" := Dialog.mkWidget Dialog.Inherit 3%N "" ]})).
      vm_compute. reflexivity.
    + apply Hcase. vm_compute. reflexivity.
  - apply (Hlabel _ "title" _ (Dialog.mkWidget Dialog.Inherit 3%N ""));
      [discriminate|reflexivity|reflexivity].
  - apply Hnone. vm_compute. reflexivity.
Defined.

Example add_label_any_case :
  (DialogScriptObject.add
     {[ "LabelWidgetScriptObject" := Dialog.mkWidget Dialog.Inherit 3%N "" ]}
     "lAbEl" ""
     (DialogScriptObject.mkDialogScriptObject ∅ 0 (Dialog.mkDialog false []))).1
  = Some (Dialog.mkWidget Dialog.Inherit 3%N "label0").
Proof. vm_compute. reflexivity. Qed.

(** * Further properties of the code *)

(** ** Values read from the interpreters *)

(** What [LuaScriptObject::getValue] can yield: never an OBJECT, as INT only
    0 and 1 (from a boolean); a number of either subtype arrives as DOUBLE, a
    missing slot as UNDEFINED; nothing is logged. *)
Theorem lua_getValue_kinds :
  forall (L0 : Lua.lua_State) (index : Z),
    (LuaScriptObject.getValue L0 index).2 = [] /\
    (forall p, (LuaScriptObject.getValue L0 index).1 <> OBJECT p) /\
    (forall i, (LuaScriptObject.getValue L0 index).1 = INT i -> i = 0 \/ i = 1) /\
    (Lua.lua_type L0 index = Lua.LUA_TNUMBER ->
       exists d, (LuaScriptObject.getValue L0 index).1 = DOUBLE d) /\
    (Lua.index2value L0 index = None ->
       (LuaScriptObject.getValue L0 index).1 = UNDEFINED).
Proof.
  intros L0 index.
  unfold LuaScriptObject.getValue, Lua.lua_type, Lua.lua_toboolean, Lua.lua_tonumber,
    Lua.lua_tostring.
  destruct (Lua.index2value L0 index) as [v|]; [|repeat split; try done; eauto].
  destruct v as [| [] | | | | | | | | | |]; simpl;
    repeat split; try done; try (intros ? [= <-]; auto); eauto.
Qed.

Lemma lua_getValue_kinds_witness :
  (exists d,
     (LuaScriptObject.getValue {| Lua.stack := [Lua.LInteger 7]; Lua.globals := ∅ |} 1).1
     = DOUBLE d) /\
  (LuaScriptObject.getValue {| Lua.stack := [Lua.LBoolean true]; Lua.globals := ∅ |} 1).1
    = INT 1 /\
  (LuaScriptObject.getValue {| Lua.stack := [Lua.LBoolean true]; Lua.globals := ∅ |} 2).1
    = UNDEFINED.
Proof.
  split; [|split].
  - apply (lua_getValue_kinds {| Lua.stack := [Lua.LInteger 7]; Lua.globals := ∅ |} 1).
    reflexivity.
  - reflexivity.
  - apply (lua_getValue_kinds {| Lua.stack := [Lua.LBoolean true]; Lua.globals := ∅ |} 2).
    reflexivity.
Defined.

(** In [V8ScriptObject::getValue] the tests for Uint32 and Int32 come after
    the test for Number and are never reached: every JavaScript number,
    integral or not, arrives as a DOUBLE.  An INT is only ever 0 or 1 (from a
    boolean), and no value arrives as an OBJECT. *)
Theorem v8_getValue_kinds :
  forall local : V8.v8_value,
    (forall d, V8ScriptObject.getValue (V8.VNumber d) = (DOUBLE d, [])) /\
    (V8.IsNumber local = true ->
       V8ScriptObject.getValue local = (DOUBLE (V8.NumberValue local), [])) /\
    (V8.IsUint32 local = true \/ V8.IsInt32 local = true ->
       V8.IsNumber local = true /\
       V8ScriptObject.getValue local = (DOUBLE (V8.NumberValue local), [])) /\
    (forall p, (V8ScriptObject.getValue local).1 <> OBJECT p) /\
    (forall i, (V8ScriptObject.getValue local).1 = INT i -> i = 0 \/ i = 1).
Proof.
  intros local. split; [reflexivity|].
  destruct local as [| | [] | d | | | | | |];
    (split; [intros H; try discriminate H; reflexivity|]);
    (split; [intros [H|H]; try discriminate H; split; reflexivity|]);
    split; try done; simpl; intros i [= <-]; auto.
Qed.

Lemma v8_getValue_kinds_witness :
  V8ScriptObject.getValue (V8.Int32_New 7) = (DOUBLE (double_of_int 7), []) /\
  V8ScriptObject.getValue (V8.VNumber 0.5) = (DOUBLE 0.5, []).
Proof.
  split.
  - destruct (v8_getValue_kinds (V8.Int32_New 7)) as (_ & _ & H & _).
    apply H. right. vm_compute. reflexivity.
  - destruct (v8_getValue_kinds (V8.VNumber 0.5)) as (_ & H & _).
    apply H. reflexivity.
Defined.

(** ** Results handed to Lua *)

(** [LuaScriptObject::returnValue] pushes as many values as it reports, none
    or one, on top of the stack it was given, and leaves the globals alone. *)
Theorem lua_returnValue_stack :
  forall (h : heap) (L0 L1 : Lua.lua_State) (value : Value) (n : Z),
    LuaScriptObject.returnValue h L0 value = Some (n, L1) ->
    (n = 0 \/ n = 1) /\
    Lua.lua_gettop L1 = Lua.lua_gettop L0 + n /\
    Lua.stack L0 `prefix_of` Lua.stack L1 /\
    Lua.globals L1 = Lua.globals L0 /\
    (n = 0 <-> value = UNDEFINED \/ value = OBJECT nullptr).
Proof.
  intros h L0 L1 value n H.
  assert (Hpush : forall v, Lua.lua_gettop (Lua.push v L0) = Lua.lua_gettop L0 + 1).
  { intros v. unfold Lua.lua_gettop, Lua.push. simpl. rewrite length_app. simpl. lia. }
  destruct value as [|i|d|s|p]; simpl in H.
  - injection H as <- <-. repeat split; auto; try lia. 
  - injection H as <- <-. repeat split; auto; try apply Hpush;
      try (by apply prefix_app_r); try (intros [?|?]; discriminate); lia.
  - injection H as <- <-. repeat split; auto; try apply Hpush;
      try (by apply prefix_app_r); try (intros [?|?]; discriminate); lia.
  - injection H as <- <-. repeat split; auto; try apply Hpush;
      try (by apply prefix_app_r); try (intros [?|?]; discriminate); lia.
  - destruct (N.eqb_spec p nullptr) as [->|Hp].
    + injection H as <- <-. repeat split; auto; try lia.
    + destruct (h !! p) as [so|]; [|discriminate H]. cbn [mbind option_bind] in H.
      rewrite makeLocal_pushes in H. cbn [mbind option_bind] in H.
      injection H as <- <-. repeat split; auto; try apply Hpush;
        try (by apply prefix_app_r); try lia.
      intros [?|[= ?]]; [discriminate|]. subst. done.
Qed.

Lemma lua_returnValue_stack_witness :
  Lua.lua_gettop (Lua.lua_pushstring "abc" LuaEngine.luaL_newstate)
  = Lua.lua_gettop LuaEngine.luaL_newstate + 1.
Proof.
  apply (lua_returnValue_stack Sample.objects LuaEngine.luaL_newstate _ (STRING "abc") 1).
  reflexivity.
Defined.

(** ** The objects built for a script *)

Section ByName.
Context {A V : Type} (key : A -> string) (val : A -> V).

Lemma lookup_name_app k (l1 l2 : list (string * V)) :
  lookup_name k (l1 ++ l2) =
  match lookup_name k l1 with Some v => Some v | None => lookup_name k l2 end.
Proof.
  induction l1 as [|[k' v] l1 IH]; simpl; [done|].
  destruct (String.eqb k k'); [done|apply IH].
Qed.

Lemma lookup_name_filter k k' (l : list (string * V)) :
  lookup_name k' (filter (fun e => e.1 ≠ k) l) =
  if decide (k' = k) then None else lookup_name k' l.
Proof.
  induction l as [|[k0 v] l IH]; simpl; [by destruct (decide _)|].
  rewrite filter_cons. simpl.
  destruct (decide (k0 ≠ k)) as [Hne|Heq]; simpl.
  - destruct (String.eqb_spec k' k0) as [->|Hk].
    + by destruct (decide (k0 = k)).
    + apply IH.
  - apply dec_stable in Heq. subst k0. rewrite IH.
    destruct (decide (k' = k)) as [->|Hne]; [done|].
    by destruct (String.eqb_spec k' k).
Qed.

(** Storing under a name replaces what was there and touches nothing else. *)
Lemma lookup_name_store k k' (v : V) (l : list (string * V)) :
  lookup_name k' (filter (fun e => e.1 ≠ k) l ++ [(k, v)]) =
  if decide (k' = k) then Some v else lookup_name k' l.
Proof.
  rewrite lookup_name_app, lookup_name_filter. simpl.
  destruct (decide (k' = k)) as [->|Hne].
  - by rewrite String.eqb_refl.
  - destruct (lookup_name k' l); [done|].
    by destruct (String.eqb_spec k' k).
Qed.

End ByName.

(** [object->Set] and [DefineProperty] by name. *)
Lemma lookup_name_set_property k k' p props :
  lookup_name k' (V8.set_property k p props) =
  if decide (k' = k) then Some p else lookup_name k' props.
Proof.
  induction props as [|[k0 p0] props IH]; simpl.
  - destruct (decide (k' = k)) as [->|Hne]; [by rewrite String.eqb_refl|].
    by destruct (String.eqb_spec k' k).
  - destruct (String.eqb_spec k k0) as [<-|Hk]; simpl.
    + destruct (decide (k' = k)) as [->|Hne]; [by rewrite String.eqb_refl|].
      by destruct (String.eqb_spec k' k).
    + destruct (String.eqb_spec k' k0) as [->|Hk'].
      * by destruct (decide (k0 = k)) as [->|].
      * apply IH.
Qed.

(** Storing an entry for each element of a list in turn, with any way of
    storing that replaces what the name held and touches nothing else. *)
Section StoreAll.
Context {A V : Type} (key : A -> string) (val : A -> V).
Context (store : string -> V -> list (string * V) -> list (string * V)).
Hypothesis store_lookup : forall k k' v l,
  lookup_name k' (store k v l) = if decide (k' = k) then Some v else lookup_name k' l.

Lemma store_all_other k es l :
  k ∉ map key es ->
  lookup_name k (foldl (fun l e => store (key e) (val e) l) l es) = lookup_name k l.
Proof.
  induction es as [|e es IH] using rev_ind; intros Hk; [done|].
  rewrite foldl_app. simpl. rewrite store_lookup.
  rewrite map_app in Hk. simpl in Hk.
  destruct (decide (k = key e)) as [->|Hne].
  - exfalso. apply Hk. apply elem_of_app. right. by apply list_elem_of_singleton.
  - apply IH. intros Hin. apply Hk. apply elem_of_app. by left.
Qed.

Lemma store_all_stored e es l :
  NoDup (map key es) -> e ∈ es ->
  lookup_name (key e) (foldl (fun l e => store (key e) (val e) l) l es) = Some (val e).
Proof.
  induction es as [|e' es IH] using rev_ind; intros Hnd He; [by apply elem_of_nil in He|].
  rewrite foldl_app. simpl. rewrite store_lookup.
  rewrite map_app in Hnd. simpl in Hnd. apply NoDup_app in Hnd as (Hnd & Hdisj & _).
  apply elem_of_app in He as [He|He].
  - destruct (decide (key e = key e')) as [Heq|Hne].
    + exfalso. apply (Hdisj (key e)).
      * apply list_elem_of_In, in_map, list_elem_of_In, He.
      * rewrite Heq. by apply list_elem_of_singleton.
    + by apply IH.
  - apply list_elem_of_singleton in He. subst e'. by destruct (decide _).
Qed.

End StoreAll.

(** [LuaScriptObject::makeLocal] always succeeds and pushes one table.  The
    names are handed to Lua as C strings.  With the C strings of the function
    names and of the property names each unique, the table holds under every
    property name that property's accessor, under every function name that no
    property uses that function's closure, and nothing else: where a function
    and a property share a name the property wins. *)
Theorem lua_makeLocal_fields :
  forall (so : ScriptObject) (L0 : Lua.lua_State),
    NoDup (map lua_name (functions so)) -> NoDup (map lua_name (properties so)) ->
    exists fields,
      LuaScriptObject.makeLocal so L0
        = Some (Lua.lua_gettop L0 + 1, Lua.push (Lua.LTable fields) L0) /\
      (forall k p, (k, p) ∈ properties so ->
         lookup_name (c_str k) fields
         = Some (Lua.LCClosure Lua.getset (Lua.LLightUserdata p))) /\
      (forall k p, (k, p) ∈ functions so -> c_str k ∉ map lua_name (properties so) ->
         lookup_name (c_str k) fields
         = Some (Lua.LCClosure Lua.callFunc (Lua.LLightUserdata p))) /\
      (forall k, k ∉ map lua_name (functions so) -> k ∉ map lua_name (properties so) ->
         lookup_name k fields = None).
Proof.
  intros so L0 Hf Hp. eexists. split; [apply makeLocal_pushes|].
  unfold LuaScriptObject.table_of, LuaScriptObject.closures.
  pose proof (@lookup_name_store Lua.TValue) as Hstore.
  split; [|split].
  - intros k p Hin.
    apply (store_all_stored lua_name
             (fun e => Lua.LCClosure Lua.getset (Lua.LLightUserdata e.2))
             Lua.set_field Hstore (k, p) _ _ Hp Hin).
  - intros k p Hin Hk.
    rewrite (store_all_other lua_name
               (fun e => Lua.LCClosure Lua.getset (Lua.LLightUserdata e.2))
               Lua.set_field Hstore) by done.
    apply (store_all_stored lua_name
             (fun e => Lua.LCClosure Lua.callFunc (Lua.LLightUserdata e.2))
             Lua.set_field Hstore (k, p) _ _ Hf Hin).
  - intros k Hkf Hkp.
    rewrite (store_all_other lua_name
               (fun e => Lua.LCClosure Lua.getset (Lua.LLightUserdata e.2))
               Lua.set_field Hstore) by done.
    by rewrite (store_all_other lua_name
                  (fun e => Lua.LCClosure Lua.callFunc (Lua.LLightUserdata e.2))
                  Lua.set_field Hstore).
Qed.

Lemma lua_makeLocal_fields_witness :
  exists fields,
    LuaScriptObject.makeLocal
      {| functions := [("open", 16%N); ("size", 17%N)];
         properties := [("size", 32%N); (Sample.text_with_nul, 33%N)] |}
      LuaEngine.luaL_newstate
      = Some (1, Lua.push (Lua.LTable fields) LuaEngine.luaL_newstate) /\
    lookup_name "size" fields = Some (Lua.LCClosure Lua.getset (Lua.LLightUserdata 32%N)) /\
    lookup_name "a" fields = Some (Lua.LCClosure Lua.getset (Lua.LLightUserdata 33%N)) /\
    lookup_name "open" fields = Some (Lua.LCClosure Lua.callFunc (Lua.LLightUserdata 16%N)) /\
    lookup_name Sample.text_with_nul fields = None.
Proof.
  destruct (lua_makeLocal_fields
              {| functions := [("open", 16%N); ("size", 17%N)];
                 properties := [("size", 32%N); (Sample.text_with_nul, 33%N)] |}
              LuaEngine.luaL_newstate) as (fields & Hm & Hp & Hf & Hn).
  - compute_done.
  - compute_done.
  - exists fields. split; [exact Hm|]. split; [|split; [|split]].
    + apply (Hp "size" 32%N). compute_done.
    + apply (Hp Sample.text_with_nul 33%N). compute_done.
    + apply (Hf "open" 16%N); compute_done.
    + apply Hn; compute_done.
Defined.

(** [V8ScriptObject::makeLocal]: the names are handed to V8 as C strings.
    With what V8 reads of the function names and of the property names each
    unique, the object has, under every property name, an accessor pair
    whose getter and setter both carry the address of that property entry;
    under every function name that no property uses, the function; and
    nothing else. *)
Theorem v8_makeLocal_properties :
  forall (so : ScriptObject),
    NoDup (map v8_name (functions so)) -> NoDup (map v8_name (properties so)) ->
    exists props,
      V8ScriptObject.makeLocal so = V8.VObject props /\
      (forall k p, (k, p) ∈ properties so ->
         lookup_name (V8.NewFromUtf8_text k) props =
         Some (V8.AccessorProperty (V8.VFunction V8.getterFunc p)
                                   (V8.VFunction V8.setterFunc p))) /\
      (forall k p, (k, p) ∈ functions so ->
         V8.NewFromUtf8_text k ∉ map v8_name (properties so) ->
         lookup_name (V8.NewFromUtf8_text k) props
         = Some (V8.DataProperty (V8.VFunction V8.callFunc p))) /\
      (forall k, k ∉ map v8_name (functions so) -> k ∉ map v8_name (properties so) ->
         lookup_name k props = None).
Proof.
  intros so Hf Hp. eexists. split; [reflexivity|].
  unfold V8ScriptObject.pushProperties, V8ScriptObject.pushFunctions.
  pose proof lookup_name_set_property as Hstore.
  assert (Hset : forall k k' v l,
            lookup_name k' (V8.set_property k v l)
            = if decide (k' = k) then Some v else lookup_name k' l)
    by (intros; apply Hstore).
  split; [|split].
  - intros k p Hin.
    apply (store_all_stored v8_name
             (fun e => V8.AccessorProperty (V8.VFunction V8.getterFunc e.2)
                                           (V8.VFunction V8.setterFunc e.2))
             V8.set_property Hset (k, p) _ _ Hp Hin).
  - intros k p Hin Hk.
    rewrite (store_all_other v8_name
               (fun e => V8.AccessorProperty (V8.VFunction V8.getterFunc e.2)
                                             (V8.VFunction V8.setterFunc e.2))
               V8.set_property Hset) by done.
    apply (store_all_stored v8_name
             (fun e => V8.DataProperty (V8.VFunction V8.callFunc e.2))
             V8.set_property Hset (k, p) _ _ Hf Hin).
  - intros k Hkf Hkp.
    rewrite (store_all_other v8_name
               (fun e => V8.AccessorProperty (V8.VFunction V8.getterFunc e.2)
                                             (V8.VFunction V8.setterFunc e.2))
               V8.set_property Hset) by done.
    by rewrite (store_all_other v8_name
                  (fun e => V8.DataProperty (V8.VFunction V8.callFunc e.2))
                  V8.set_property Hset).
Qed.

Lemma v8_makeLocal_properties_witness :
  exists props,
    V8ScriptObject.makeLocal
      {| functions := [("open", 16%N); ("size", 17%N)];
         properties := [("size", 32%N); (Sample.text_with_nul, 33%N)] |}
      = V8.VObject props /\
    lookup_name "size" props =
      Some (V8.AccessorProperty (V8.VFunction V8.getterFunc 32%N)
                                (V8.VFunction V8.setterFunc 32%N)) /\
    lookup_name "a" props =
      Some (V8.AccessorProperty (V8.VFunction V8.getterFunc 33%N)
                                (V8.VFunction V8.setterFunc 33%N)) /\
    lookup_name "open" props = Some (V8.DataProperty (V8.VFunction V8.callFunc 16%N)).
Proof.
  destruct (v8_makeLocal_properties
              {| functions := [("open", 16%N); ("size", 17%N)];
                 properties := [("size", 32%N); (Sample.text_with_nul, 33%N)] |})
    as (props & Hm & Hp & Hf & _).
  - compute_done.
  - compute_done.
  - exists props. split; [exact Hm|]. split; [|split].
    + apply (Hp "size" 32%N). compute_done.
    + apply (Hp Sample.text_with_nul 33%N). compute_done.
    + apply (Hf "open" 16%N); compute_done.
Defined.

(** [LuaScriptObject::makeGlobal] always succeeds: the C string of the name
    is bound to the new table, replacing what it was bound to, the other
    globals are as before, and the table pushed by [makeLocal] is left on the
    stack, which is one slot higher after the call. *)
Theorem lua_makeGlobal_effect :
  forall (so : ScriptObject) (name : string) (L0 : Lua.lua_State),
    exists L1,
      LuaScriptObject.makeGlobal so name L0 = Some L1 /\
      Lua.globals L1 !! c_str name = Some (LuaScriptObject.table_of so) /\
      (forall other, other <> c_str name ->
         Lua.globals L1 !! other = Lua.globals L0 !! other) /\
      Lua.stack L1 = Lua.stack L0 ++ [LuaScriptObject.table_of so] /\
      Lua.lua_gettop L1 = Lua.lua_gettop L0 + 1.
Proof.
  intros so name L0. eexists. split; [apply makeGlobal_binds|]. simpl.
  split; [apply lookup_insert_eq|]. split; [|split; [done|]].
  - intros other Hne. by apply lookup_insert_ne.
  - unfold Lua.lua_gettop. simpl. rewrite length_app. simpl. lia.
Qed.

Lemma lua_makeGlobal_effect_witness :
  exists L1,
    LuaScriptObject.makeGlobal Sample.app Sample.text_with_nul
      {| Lua.stack := [];
         Lua.globals := {[ "print" := Lua.LClosure 1%N; "a" := Lua.LNil ]} |} = Some L1 /\
    Lua.globals L1 !! "a" = Some (LuaScriptObject.table_of Sample.app) /\
    Lua.globals L1 !! "print" = Some (Lua.LClosure 1%N) /\
    Lua.globals L1 !! Sample.text_with_nul = None /\
    Lua.lua_gettop L1 = 1.
Proof.
  destruct (lua_makeGlobal_effect Sample.app Sample.text_with_nul
              {| Lua.stack := [];
                 Lua.globals := {[ "print" := Lua.LClosure 1%N; "a" := Lua.LNil ]} |})
    as (L1 & Hm & Hb & Ho & _ & Ht).
  exists L1. split; [exact Hm|]. split; [exact Hb|]. split; [|split; [|exact Ht]].
  - rewrite Ho; [reflexivity|discriminate].
  - rewrite Ho; [reflexivity|discriminate].
Defined.

(** ** More on LuaEngine::eval *)

(** A Lua error raised while the chunk runs is reported nowhere:
    [LuaEngine::eval] returns false, prints nothing and leaves the error
    value on the Lua stack; the listeners, those registered during the run
    included, are invoked with false. *)
Theorem lua_eval_runtime_error_silent :
  forall (I : LuaEngine.Interp) (code : string) (e : LuaEngine.LuaEngine) (msg : Lua.TValue),
    LuaEngine.parse I (c_str code) = None ->
    LuaEngine.run_end (LuaEngine.exec I (c_str code) (Lua.globals (LuaEngine.L e)))
      = LuaEngine.Raised msg ->
    let r := LuaEngine.eval I code e in
    ret r = false /\
    console (trace r) = [] /\
    Lua.stack (LuaEngine.L (state r)) = Lua.stack (LuaEngine.L e) ++ [msg] /\
    trace r =
      map (fun l => AfterEval l false)
          (Engine.m_afterEvalListeners (LuaEngine.base e) ++
           LuaEngine.run_listeners
             (LuaEngine.exec I (c_str code) (Lua.globals (LuaEngine.L e)))).
Proof.
  intros I code e msg Hp Hr r. subst r.
  rewrite lua_eval_console, (lua_eval_eq_cases I code e).
  unfold LuaEngine.eval_cases. rewrite Hp, Hr. simpl.
  split; [done|]. split; [done|]. split; [done|].
  unfold Engine.execAfterEval. by rewrite afterEvalAll_listeners.
Qed.

Lemma lua_eval_runtime_error_silent_witness :
  let I := {| LuaEngine.openlibs := ∅;
              LuaEngine.parse := fun _ => None;
              LuaEngine.exec := fun _ g =>
                LuaEngine.mkRun (LuaEngine.Raised (Lua.LString "attempt to call a nil value"))
                                g [] |} in
  let r := LuaEngine.eval I "f()" Sample.lua_engine in
  ret r = false /\ console (trace r) = [] /\
  Lua.stack (LuaEngine.L (state r)) = [Lua.LString "attempt to call a nil value"].
Proof.
  intros I.
  destruct (lua_eval_runtime_error_silent I "f()" Sample.lua_engine
              (Lua.LString "attempt to call a nil value") eq_refl eq_refl)
    as (H1 & H2 & H3 & _).
  split; [exact H1|]. split; [exact H2|exact H3].
Defined.

(** A rejected source leaves the parser's message on the stack. *)
Lemma lua_eval_rejected_top I code e msg :
  LuaEngine.parse I (c_str code) = Some msg ->
  Lua.lua_gettop (LuaEngine.L (state (LuaEngine.eval I code e)))
  = Lua.lua_gettop (LuaEngine.L e) + 1.
Proof.
  intros Hp. rewrite lua_eval_eq_cases. unfold LuaEngine.eval_cases. rewrite Hp. simpl.
  unfold Lua.lua_gettop. simpl. rewrite length_app. simpl. lia.
Qed.

(** Every source the parser rejects costs one slot of the Lua stack that is
    not given back: after evaluating [n] such sources the stack is [n] slots
    higher.  An evaluation that runs to its end empties the whole stack,
    whatever was on it. *)
Theorem lua_eval_stack_growth :
  forall (I : LuaEngine.Interp) (codes : list string) (e : LuaEngine.LuaEngine),
    (Forall (fun code => is_Some (LuaEngine.parse I (c_str code))) codes ->
     Lua.lua_gettop
       (LuaEngine.L (Session.session I (map Session.CallEval codes) e).2)
     = Lua.lua_gettop (LuaEngine.L e) + Z.of_nat (length codes)) /\
    (forall code,
       LuaEngine.parse I (c_str code) = None ->
       LuaEngine.run_end (LuaEngine.exec I (c_str code) (Lua.globals (LuaEngine.L e)))
         = LuaEngine.Finished ->
       Lua.stack (LuaEngine.L (state (LuaEngine.eval I code e))) = []).
Proof.
  intros I codes e. split.
  - revert e. induction codes as [|code codes IH]; intros e Hall; simpl; [lia|].
    apply Forall_cons in Hall as [[msg Hmsg] Hall].
    destruct (Session.session I (map Session.CallEval codes)
                (state (LuaEngine.eval I code e))) as [log e2] eqn:Hs. simpl.
    specialize (IH (state (LuaEngine.eval I code e)) Hall). rewrite Hs in IH. simpl in IH.
    rewrite IH, (lua_eval_rejected_top I code e msg Hmsg). lia.
  - intros code Hp Hr. rewrite lua_eval_eq_cases. unfold LuaEngine.eval_cases.
    by rewrite Hp, Hr.
Qed.

Lemma lua_eval_stack_growth_witness :
  Lua.lua_gettop
    (LuaEngine.L
       (Session.session (Sample.lua ["x ="; "y ="])
          (map Session.CallEval ["x ="; "y ="; "x ="])
          (LuaEngine.constructed (Sample.lua ["x ="; "y ="]) Sample.reg)).2)
  = Lua.lua_gettop (LuaEngine.L (LuaEngine.constructed (Sample.lua ["x ="; "y ="]) Sample.reg))
    + 3 /\
  Lua.stack
    (LuaEngine.L
       (state (LuaEngine.eval (Sample.lua ["x ="; "y ="]) "z = 1"
                 (LuaEngine.constructed (Sample.lua ["x ="; "y ="]) Sample.reg)))) = [].
Proof.
  destruct (lua_eval_stack_growth (Sample.lua ["x ="; "y ="]) ["x ="; "y ="; "x ="]
              (LuaEngine.constructed (Sample.lua ["x ="; "y ="]) Sample.reg)) as [Hg Hc].
  split.
  - apply Hg. repeat constructor; vm_compute; eauto.
  - apply Hc; vm_compute; reflexivity.
Defined.

(** The constructor leaves one table on the Lua stack for every global
    object it binds. *)
Theorem lua_constructor_stack :
  forall (I : LuaEngine.Interp) (reg : registry),
    exists r,
      LuaEngine.new I reg = Some r /\
      Lua.lua_gettop (LuaEngine.L (state r))
      = Z.of_nat (length (getAllWithFlag reg "global")) /\
      Forall (fun v => Lua.ttype v = Lua.LUA_TTABLE) (Lua.stack (LuaEngine.L (state r))).
Proof.
  intros I reg. eexists. split; [apply lua_new|]. simpl. split.
  - unfold Lua.lua_gettop. simpl. by rewrite length_map.
  - apply Forall_forall. intros v Hin. apply list_elem_of_In, in_map_iff in Hin.
    destruct Hin as (f & <- & _). reflexivity.
Qed.

(** ** More on V8Engine::eval *)

(** How [V8Engine::eval] ends once the source has compiled.  A JavaScript
    exception is handed to the delegate, once, as its text when it converts
    to a string, and the call still returns false, as it does after a
    successful run.  A std::exception that leaves a native callback ends the
    process: nothing is printed.  The print-last-result flag is never
    cleared. *)
Theorem v8_eval_flag :
  forall (I : V8Engine.Interp) (reg : registry) (code : string) (e : V8Engine.V8Engine),
    let r := V8Engine.eval I reg code e in
    let run := V8Engine.exec I (c_str code) (ret (V8Engine.initGlobals reg e)) in
    (forall exception,
       V8Engine.compiles I (c_str code) = true ->
       V8Engine.run_completion run = V8Engine.Empty (Some exception) ->
       ret r = V8Engine.Returns false /\
       console (trace r) = [V8Engine.onConsolePrint (V8Engine.Utf8Value I exception)] /\
       (forall text, V8Engine.Utf8Value I exception = Some text ->
          console (trace r) = [ConsolePrint (c_str text)])) /\
    (forall v,
       V8Engine.compiles I (c_str code) = true ->
       V8Engine.run_completion run = V8Engine.Value v ->
       ret r = V8Engine.Returns false) /\
    (V8Engine.compiles I (c_str code) = true ->
     V8Engine.run_completion run = V8Engine.Empty None ->
     ret r = V8Engine.Returns false /\ console (trace r) = []) /\
    (forall what,
       V8Engine.compiles I (c_str code) = true ->
       V8Engine.run_completion run = V8Engine.Thrown what ->
       ret r = V8Engine.Aborts /\ console (trace r) = []) /\
    V8Engine.m_printLastResult (state r) = V8Engine.m_printLastResult e.
Proof.
  intros I reg code e r run. subst r run. unfold V8Engine.eval.
  split; [|split; [|split; [|split]]].
  - intros exception Hc Hr. rewrite Hc. cbv zeta. rewrite Hr. simpl.
    split; [done|].
    assert (Hcon : forall t, console [V8Engine.onConsolePrint t] = [V8Engine.onConsolePrint t])
      by (by intros [t|]).
    split; [apply Hcon|]. intros text Ht. by rewrite Ht.
  - intros v Hc Hr. rewrite Hc. cbv zeta. by rewrite Hr.
  - intros Hc Hr. rewrite Hc. cbv zeta. by rewrite Hr.
  - intros what Hc Hr. rewrite Hc. cbv zeta. by rewrite Hr.
  - destruct (V8Engine.compiles I (c_str code)); [|done].
    cbv zeta. by destruct (V8Engine.run_completion _).
Qed.

Lemma v8_eval_flag_witness :
  let I := {| V8Engine.compiles := fun _ => true;
              V8Engine.exec := fun _ _ =>
                V8Engine.mkRun (V8Engine.Empty (Some (V8.VString "ReferenceError: f is not defined"))) [];
              V8Engine.ToString := fun _ => None |} in
  let K := {| V8Engine.compiles := fun _ => true;
              V8Engine.exec := fun _ _ => V8Engine.mkRun (V8Engine.Thrown "bad argument") [];
              V8Engine.ToString := fun _ => None |} in
  (ret (V8Engine.eval I Sample.reg "f()" Sample.v8_engine) = V8Engine.Returns false /\
   console (trace (V8Engine.eval I Sample.reg "f()" Sample.v8_engine))
     = [ConsolePrint "ReferenceError: f is not defined"]) /\
  (ret (V8Engine.eval K Sample.reg "app.open()" Sample.v8_engine) = V8Engine.Aborts /\
   console (trace (V8Engine.eval K Sample.reg "app.open()" Sample.v8_engine)) = []).
Proof.
  intros I K. split.
  - destruct (v8_eval_flag I Sample.reg "f()" Sample.v8_engine) as (H & _).
    destruct (H (V8.VString "ReferenceError: f is not defined")) as (Hret & _ & Htext);
      [reflexivity|reflexivity|].
    split; [exact Hret|].
    apply (Htext "ReferenceError: f is not defined"). reflexivity.
  - destruct (v8_eval_flag K Sample.reg "app.open()" Sample.v8_engine) as (_ & _ & _ & H & _).
    apply (H "bad argument"); reflexivity.
Defined.

(** With print-last-result enabled, [V8Engine::eval] of a script that yields
    a value hands the delegate exactly one text: that of the value when it
    converts to a string, a null pointer when it does not, which the code
    does not check; without the flag the same evaluation prints nothing. *)
Theorem v8_eval_prints_last_result :
  forall (I : V8Engine.Interp) (reg : registry) (code : string) (e : V8Engine.V8Engine)
         (v : V8.v8_value),
    V8Engine.compiles I (c_str code) = true ->
    V8Engine.run_completion
      (V8Engine.exec I (c_str code) (ret (V8Engine.initGlobals reg e))) = V8Engine.Value v ->
    (forall text, V8Engine.Utf8Value I v = Some text ->
       console (trace (V8Engine.eval I reg code (V8Engine.printLastResult e)))
         = [ConsolePrint (c_str text)]) /\
    (V8Engine.Utf8Value I v = None ->
       console (trace (V8Engine.eval I reg code (V8Engine.printLastResult e)))
         = [ConsolePrintNull]) /\
    (V8Engine.m_printLastResult e = false ->
     console (trace (V8Engine.eval I reg code e)) = []).
Proof.
  intros I reg code e v Hc Hr.
  assert (Hon : trace (V8Engine.eval I reg code (V8Engine.printLastResult e))
                = trace (V8Engine.initGlobals reg e)
                  ++ [V8Engine.onConsolePrint (V8Engine.Utf8Value I v)]).
  { unfold V8Engine.eval. rewrite Hc. cbv zeta.
    change (ret (V8Engine.initGlobals reg (V8Engine.printLastResult e)))
      with (ret (V8Engine.initGlobals reg e)).
    rewrite Hr. reflexivity. }
  split; [|split].
  - intros text Ht. rewrite Hon, Ht. reflexivity.
  - intros Ht. rewrite Hon, Ht. reflexivity.
  - intros Hf. unfold V8Engine.eval. rewrite Hc. cbv zeta. rewrite Hr, Hf. reflexivity.
Qed.

Lemma v8_eval_prints_last_result_witness :
  let I := {| V8Engine.compiles := fun _ => true;
              V8Engine.exec := fun _ _ => V8Engine.mkRun (V8Engine.Value (V8.VNumber 4)) [];
              V8Engine.ToString := fun _ => Some "4" |} in
  let K := {| V8Engine.compiles := fun _ => true;
              V8Engine.exec := fun _ _ => V8Engine.mkRun (V8Engine.Value (V8.VSymbol 1%N)) [];
              V8Engine.ToString := fun _ => None |} in
  console (trace (V8Engine.eval I Sample.reg "2+2" (V8Engine.printLastResult Sample.v8_engine)))
    = [ConsolePrint "4"] /\
  console (trace (V8Engine.eval K Sample.reg "Symbol()"
                    (V8Engine.printLastResult Sample.v8_engine)))
    = [ConsolePrintNull] /\
  console (trace (V8Engine.eval I Sample.reg "2+2" Sample.v8_engine)) = [].
Proof.
  intros I K.
  destruct (v8_eval_prints_last_result I Sample.reg "2+2" Sample.v8_engine (V8.VNumber 4)
              eq_refl eq_refl) as (H1 & _ & H3).
  destruct (v8_eval_prints_last_result K Sample.reg "Symbol()" Sample.v8_engine
              (V8.VSymbol 1%N) eq_refl eq_refl) as (_ & H2 & _).
  split; [apply (H1 "4"); reflexivity|]. split; [apply H2; reflexivity|].
  apply H3. reflexivity.
Defined.

(** ** The layout of a dialog *)

Section Layout.
Import Dialog DialogWindow.

Lemma rows_of_reverse (rows : list (list addr)) back rest :
  reverse rows = back :: rest -> rows = reverse rest ++ [back].
Proof.
  intros H. rewrite <- (reverse_involutive rows), H. apply reverse_cons.
Qed.

Lemma maxColumns_from (rows : list (list addr)) (a : nat) :
  (a <= foldl (fun maxColumns row => Nat.max (length row) maxColumns) a rows)%nat /\
  Forall (fun row =>
            (length row <= foldl (fun maxColumns row => Nat.max (length row) maxColumns) a rows)%nat)
         rows.
Proof.
  revert a. induction rows as [|row rows IH]; intros a; simpl; [split; [lia|constructor]|].
  destruct (IH (Nat.max (length row) a)) as [H1 H2]. split; [lia|].
  constructor; [lia|exact H2].
Qed.

Lemma unit_cells (others : list addr) :
  sum_list (map cell_hspan (map (fun w => {| cell_widget := w; cell_hspan := 1%nat |}) others))
    = length others /\
  map cell_widget (map (fun w => {| cell_widget := w; cell_hspan := 1%nat |}) others) = others.
Proof.
  induction others as [|o os [IH1 IH2]]; simpl; [done|]. by rewrite IH1, IH2.
Qed.

Lemma row_cells_spans (n : nat) (row : list addr) :
  row ≠ [] -> (length row <= n)%nat ->
  sum_list (map cell_hspan (row_cells n row)) = n /\
  map cell_widget (row_cells n row) = row.
Proof.
  intros Hne Hle. destruct row as [|first others]; [done|].
  destruct (unit_cells others) as [H1 H2].
  unfold row_cells. cbn [map sum_list cell_hspan cell_widget length] in *.
  rewrite H1, H2. split; [simpl; lia|done].
Qed.


Lemma add_null child d :
  getWrapped child = nullptr ->
  m_children (Dialog.add child d) = m_children d /\
  m_isInline (Dialog.add child d) =
    match getDisplayType child with Block => false | _ => m_isInline d end.
Proof.
  intros Hnull. unfold Dialog.add. rewrite Hnull. simpl.
  destruct (getDisplayType child); done.
Qed.

Lemma add_widget child d :
  getWrapped child <> nullptr ->
  (m_children (Dialog.add child d) = m_children d ++ [[getWrapped child]] \/
   exists rows back,
     m_children d = rows ++ [back] /\
     m_children (Dialog.add child d) = rows ++ [back ++ [getWrapped child]]) /\
  m_isInline (Dialog.add child d) =
    match getDisplayType child with
    | Inherit => m_isInline d
    | Block => false
    | Inline => true
    end.
Proof.
  intros Hne. unfold Dialog.add.
  destruct (N.eqb_spec (getWrapped child) nullptr) as [|_]; [done|].
  destruct (getDisplayType child); simpl;
    (split; [|reflexivity]);
    destruct (reverse (m_children d)) as [|back rest] eqn:Hr; auto;
    try (destruct (m_isInline d); auto);
    right; exists (reverse rest), back; by rewrite (rows_of_reverse _ _ _ Hr).
Qed.

End Layout.

(** [Dialog::add] of a child that wraps a widget puts that widget last in the
    layout, either in a row of its own after the rows there are, or at the
    end of the last row, all rows before it staying as they are; no row is
    ever left empty and no widget already laid out is moved.  A child that
    wraps no widget changes no row. *)
Theorem dialog_add_keeps_rows :
  forall (child : Dialog.WidgetScriptObject) (d : Dialog.Dialog),
    Forall (fun row => row ≠ []) (Dialog.m_children d) ->
    Forall (fun row => row ≠ []) (Dialog.m_children (Dialog.add child d)) /\
    (Dialog.getWrapped child = nullptr ->
       Dialog.m_children (Dialog.add child d) = Dialog.m_children d) /\
    (Dialog.getWrapped child <> nullptr ->
       (Dialog.m_children (Dialog.add child d)
        = Dialog.m_children d ++ [[Dialog.getWrapped child]] \/
        exists rows back,
          Dialog.m_children d = rows ++ [back] /\
          Dialog.m_children (Dialog.add child d)
          = rows ++ [back ++ [Dialog.getWrapped child]]) /\
       concat (Dialog.m_children (Dialog.add child d))
       = concat (Dialog.m_children d) ++ [Dialog.getWrapped child]).
Proof.
  intros child d Hok.
  destruct (decide (Dialog.getWrapped child = nullptr)) as [Hnull|Hne].
  - destruct (add_null child d Hnull) as [Hc _]. rewrite Hc. done.
  - destruct (add_widget child d Hne) as [Hrows _].
    split; [|split; [done|intros _; split; [exact Hrows|]]];
      destruct Hrows as [Hc|(rows & back & Hd & Hc)]; rewrite Hc.
    + apply Forall_app. split; [done|]. by constructor.
    + rewrite Hd in Hok. apply Forall_app in Hok as [Hrows Hback].
      apply Forall_app. split; [done|]. constructor; [|constructor].
      by destruct back.
    + rewrite concat_app. simpl. by rewrite ?app_nil_r.
    + rewrite Hd, !concat_app. simpl. by rewrite ?app_nil_r, app_assoc.
Qed.

Lemma dialog_add_keeps_rows_witness :
  (Dialog.m_children
     (Dialog.add (Dialog.mkWidget Dialog.Inherit 7%N "ok")
        {| Dialog.m_isInline := true; Dialog.m_children := [[3%N]; [4%N; 5%N]] |})
   = [[3%N]; [4%N; 5%N]] ++ [[7%N]] \/
   exists rows back,
     [[3%N]; [4%N; 5%N]] = rows ++ [back] /\
     Dialog.m_children
       (Dialog.add (Dialog.mkWidget Dialog.Inherit 7%N "ok")
          {| Dialog.m_isInline := true; Dialog.m_children := [[3%N]; [4%N; 5%N]] |})
     = rows ++ [back ++ [7%N]]) /\
  concat (Dialog.m_children
            (Dialog.add (Dialog.mkWidget Dialog.Inherit 7%N "ok")
               {| Dialog.m_isInline := true; Dialog.m_children := [[3%N]; [4%N; 5%N]] |}))
  = [3%N; 4%N; 5%N; 7%N].
Proof.
  apply (dialog_add_keeps_rows (Dialog.mkWidget Dialog.Inherit 7%N "ok")
           {| Dialog.m_isInline := true; Dialog.m_children := [[3%N]; [4%N; 5%N]] |}).
  - repeat constructor; discriminate.
  - discriminate.
Defined.

(** Where [Dialog::add] puts a widget.  It starts a new row when the child is
    a Block, when the dialog is not in inline mode (as after [addBreak]) or
    when there is no row yet; otherwise it joins the last row.  Afterwards
    the dialog is in inline mode after an Inline child, out of it after a
    Block, and as before after an Inherit child.  A child that wraps no
    widget still switches inline mode off when it is a Block, but does not
    switch it on when it is Inline. *)
Theorem dialog_add_placement :
  forall (child : Dialog.WidgetScriptObject) (d : Dialog.Dialog),
    (Dialog.getWrapped child <> nullptr ->
     (Dialog.getDisplayType child = Dialog.Block \/ Dialog.m_isInline d = false \/
      Dialog.m_children d = [] ->
      Dialog.m_children (Dialog.add child d)
      = Dialog.m_children d ++ [[Dialog.getWrapped child]]) /\
     (forall rows back,
        Dialog.getDisplayType child <> Dialog.Block -> Dialog.m_isInline d = true ->
        Dialog.m_children d = rows ++ [back] ->
        Dialog.m_children (Dialog.add child d) = rows ++ [back ++ [Dialog.getWrapped child]]) /\
     Dialog.m_isInline (Dialog.add child d) =
       match Dialog.getDisplayType child with
       | Dialog.Inherit => Dialog.m_isInline d
       | Dialog.Block => false
       | Dialog.Inline => true
       end) /\
    (Dialog.getWrapped child = nullptr ->
     Dialog.m_isInline (Dialog.add child d) =
       match Dialog.getDisplayType child with
       | Dialog.Block => false
       | _ => Dialog.m_isInline d
       end) /\
    (Dialog.getWrapped child <> nullptr ->
     Dialog.m_children (Dialog.add child (Dialog.addBreak d))
     = Dialog.m_children d ++ [[Dialog.getWrapped child]]).
Proof.
  intros child d.
  assert (Hnew : forall d0, Dialog.getWrapped child <> nullptr ->
            Dialog.getDisplayType child = Dialog.Block \/ Dialog.m_isInline d0 = false \/
              Dialog.m_children d0 = [] ->
            Dialog.m_children (Dialog.add child d0)
            = Dialog.m_children d0 ++ [[Dialog.getWrapped child]]).
  { intros d0 Hne Hcase. unfold Dialog.add.
    destruct (N.eqb_spec (Dialog.getWrapped child) nullptr) as [|_]; [done|].
    destruct Hcase as [Hb|[Hi|He]].
    - rewrite Hb. simpl. by destruct (reverse (Dialog.m_children d0)).
    - rewrite Hi. destruct (Dialog.getDisplayType child); simpl;
        by destruct (reverse (Dialog.m_children d0)).
    - rewrite He. by destruct (Dialog.getDisplayType child), (Dialog.m_isInline d0). }
  split; [|split].
  - intros Hne. split; [by apply Hnew|]. split; [|by apply add_widget].
    intros rows back Hb Hi Hd. unfold Dialog.add.
    destruct (N.eqb_spec (Dialog.getWrapped child) nullptr) as [|_]; [done|].
    rewrite Hi, Hd, reverse_snoc.
    destruct (Dialog.getDisplayType child); simpl; try done;
      by rewrite reverse_involutive.
  - intros Hnull. by apply add_null.
  - intros Hne. apply (Hnew (Dialog.addBreak d) Hne). right. left. reflexivity.
Qed.

Lemma dialog_add_placement_witness :
  Dialog.m_children
    (Dialog.add (Dialog.mkWidget Dialog.Inherit 7%N "ok")
       {| Dialog.m_isInline := true; Dialog.m_children := [[3%N]; [4%N; 5%N]] |})
  = [[3%N]; [4%N; 5%N; 7%N]] /\
  Dialog.m_children
    (Dialog.add (Dialog.mkWidget Dialog.Block 7%N "ok")
       {| Dialog.m_isInline := true; Dialog.m_children := [[3%N]; [4%N; 5%N]] |})
  = [[3%N]; [4%N; 5%N]; [7%N]] /\
  Dialog.m_isInline
    (Dialog.add (Dialog.mkWidget Dialog.Inline nullptr "none")
       {| Dialog.m_isInline := false; Dialog.m_children := [] |}) = false.
Proof.
  split; [|split].
  - destruct (dialog_add_placement (Dialog.mkWidget Dialog.Inherit 7%N "ok")
                {| Dialog.m_isInline := true; Dialog.m_children := [[3%N]; [4%N; 5%N]] |})
      as (H & _ & _).
    destruct (H ltac:(discriminate)) as (_ & Hjoin & _).
    apply (Hjoin [[3%N]] [4%N; 5%N]); [discriminate|reflexivity|reflexivity].
  - destruct (dialog_add_placement (Dialog.mkWidget Dialog.Block 7%N "ok")
                {| Dialog.m_isInline := true; Dialog.m_children := [[3%N]; [4%N; 5%N]] |})
      as (H & _ & _).
    destruct (H ltac:(discriminate)) as (Hnew & _ & _).
    apply Hnew. left. reflexivity.
  - destruct (dialog_add_placement (Dialog.mkWidget Dialog.Inline nullptr "none")
                {| Dialog.m_isInline := false; Dialog.m_children := [] |})
      as (_ & H & _).
    apply H. reflexivity.
Defined.

(** ** Building and closing the dialog window *)

Section Window.
Import Dialog DialogWindow.

Lemma row_cells_widgets (n : nat) (rows : list (list addr)) :
  map cell_widget (concat (map (row_cells n) rows)) = concat rows.
Proof.
  induction rows as [|row rows IH]; simpl; [done|].
  rewrite map_app, IH. f_equal.
  destruct row as [|first others]; [done|]. unfold row_cells. simpl.
  by rewrite (proj2 (unit_cells others)).
Qed.

Lemma layout_step_rows d c :
  Forall (fun row => row ≠ []) (m_children d) ->
  Forall (fun row => row ≠ []) (m_children (layout_step d c)).
Proof.
  intros Hok. destruct c as [child|]; [|done]. simpl.
  destruct (decide (getWrapped child = nullptr)) as [Hnull|Hne].
  - by rewrite (proj1 (add_null child d Hnull)).
  - destruct (add_widget child d Hne) as [[Hc|(rows & back & Hd & Hc)] _]; rewrite Hc.
    + apply Forall_app. split; [done|]. by constructor.
    + rewrite Hd in Hok. apply Forall_app in Hok as [Hrows _].
      apply Forall_app. split; [done|]. constructor; [|constructor]. by destruct back.
Qed.

(** No series of [add] and [addBreak] leaves an empty row. *)
Lemma laid_out_rows cs : Forall (fun row => row ≠ []) (m_children (laid_out cs)).
Proof.
  induction cs as [|c cs IH] using rev_ind; [constructor|].
  unfold laid_out. rewrite foldl_app. simpl. by apply layout_step_rows.
Qed.

Lemma build_skips w index :
  isAlive w = false \/ is_Some (m_grid w) -> build w index = (w, index, []).
Proof.
  intros H. unfold build. destruct H as [->|H]; [done|].
  rewrite (bool_decide_eq_true_2 _ H). by rewrite orb_true_r.
Qed.

Lemma build_runs w index :
  isAlive w = true -> m_grid w = None ->
  build w index =
  ({| this := this w; id := DialogWindow.id w; isAlive := true; isVisible := true;
      close_handlers := S (close_handlers w);
      m_scriptFileName := m_scriptFileName w;
      m_grid := Some {| columns := maxColumns (m_children (layout w));
                        cells := concat (map (row_cells (maxColumns (m_children (layout w))))
                                             (m_children (layout w))) |};
      layout := layout w |},
   (if bool_decide (DialogWindow.id w ≠ "") then <[DialogWindow.id w := this w]> index
    else index),
   [OpenWindow (this w)]).
Proof.
  intros Ha Hg. unfold build. rewrite Ha, Hg. reflexivity.
Qed.

End Window.

Section Columns.
Import Dialog DialogWindow.

(** The column count is the length of some row, unless no row is longer
    than the count the loop starts from. *)
Lemma maxColumns_attained (rows : list (list addr)) (a : nat) :
  foldl (fun maxColumns row => Nat.max (length row) maxColumns) a rows = a \/
  exists row, row ∈ rows /\
    length row = foldl (fun maxColumns row => Nat.max (length row) maxColumns) a rows.
Proof.
  revert a. induction rows as [|row rows IH]; intros a; simpl; [by left|].
  destruct (IH (Nat.max (length row) a)) as [H|(r & Hin & H)].
  - rewrite H. destruct (Nat.max_spec (length row) a) as [[_ Hm]|[_ Hm]]; rewrite Hm.
    + by left.
    + right. exists row. split; [by left|done].
  - right. exists r. split; [by right|done].
Qed.

Lemma sum_list_app (l1 l2 : list nat) : sum_list (l1 ++ l2) = (sum_list l1 + sum_list l2)%nat.
Proof. induction l1 as [|x l1 IH]; simpl; [done|]. rewrite IH. lia. Qed.

Lemma grid_spans (n : nat) (rows : list (list addr)) :
  Forall (fun row => row ≠ [] /\ (length row <= n)%nat) rows ->
  sum_list (map cell_hspan (concat (map (row_cells n) rows))) = (n * length rows)%nat.
Proof.
  induction rows as [|row rows IH]; intros Hall; [simpl; lia|].
  apply Forall_cons in Hall as [[Hne Hle] Hall].
  cbn [map concat length]. rewrite map_app, sum_list_app, IH by done.
  destruct (row_cells_spans n row Hne Hle) as [Hs _]. rewrite Hs. lia.
Qed.

End Columns.

(** [Dialog::build] on a dialog laid out by [add] and [addBreak]: the grid has
    as many columns as the longest row, and one when no row has more; its
    cells are those of the rows in order, every widget of the layout once;
    in each row the first cell spans the columns the row leaves free and its
    own, every other cell one column, so that the cells of each row together
    span exactly the columns of the grid. *)
Theorem dialog_build_grid :
  forall (cs : list DialogWindow.layout_call) (w : DialogWindow.Window)
         (index : DialogWindow.DialogIndex),
    DialogWindow.isAlive w = true -> DialogWindow.m_grid w = None ->
    DialogWindow.layout w = DialogWindow.laid_out cs ->
    let rows := Dialog.m_children (DialogWindow.layout w) in
    exists g,
      DialogWindow.m_grid (DialogWindow.build w index).1.1 = Some g /\
      (1 <= DialogWindow.columns g)%nat /\
      Forall (fun row => (length row <= DialogWindow.columns g)%nat) rows /\
      (DialogWindow.columns g = 1%nat \/
       exists row, row ∈ rows /\ length row = DialogWindow.columns g) /\
      DialogWindow.cells g =
        concat (map (fun row =>
                       match row with
                       | [] => []
                       | first :: others =>
                           DialogWindow.mkCell first
                             (1 + (DialogWindow.columns g - length row))
                           :: map (fun widget => DialogWindow.mkCell widget 1) others
                       end) rows) /\
      sum_list (map DialogWindow.cell_hspan (DialogWindow.cells g))
        = (DialogWindow.columns g * length rows)%nat /\
      Forall (fun row =>
                sum_list (map DialogWindow.cell_hspan
                            (DialogWindow.row_cells (DialogWindow.columns g) row))
                = DialogWindow.columns g)
             rows /\
      map DialogWindow.cell_widget (DialogWindow.cells g) = concat rows.
Proof.
  intros cs w index Ha Hg Hl rows. subst rows. rewrite (build_runs w index Ha Hg). simpl.
  eexists. split; [reflexivity|]. simpl.
  destruct (maxColumns_from (Dialog.m_children (DialogWindow.layout w)) 1) as [H1 Hle].
  pose proof (laid_out_rows cs) as Hrows. rewrite <- Hl in Hrows.
  split; [exact H1|]. split; [exact Hle|].
  split; [apply maxColumns_attained|].
  split; [reflexivity|].
  split.
  { apply grid_spans. apply Forall_forall. intros row Hin.
    rewrite Forall_forall in Hle, Hrows. split; [by apply Hrows|by apply Hle]. }
  split; [|apply row_cells_widgets].
  apply Forall_forall. intros row Hin.
  rewrite Forall_forall in Hle, Hrows.
  apply row_cells_spans; [by apply Hrows|by apply Hle].
Qed.

Lemma dialog_build_grid_witness :
  exists g,
    DialogWindow.m_grid
      (DialogWindow.build
         (sample_window_with
            [DialogWindow.Add (Dialog.mkWidget Dialog.Inline 3%N "a");
             DialogWindow.Add (Dialog.mkWidget Dialog.Inherit 4%N "b");
             DialogWindow.AddBreak;
             DialogWindow.Add (Dialog.mkWidget Dialog.Inherit 5%N "c")]) ∅).1.1 = Some g /\
    sum_list (map DialogWindow.cell_hspan (DialogWindow.cells g))
      = (DialogWindow.columns g * 2)%nat /\
    map DialogWindow.cell_widget (DialogWindow.cells g) = [3%N; 4%N; 5%N].
Proof.
  destruct (dialog_build_grid
              [DialogWindow.Add (Dialog.mkWidget Dialog.Inline 3%N "a");
               DialogWindow.Add (Dialog.mkWidget Dialog.Inherit 4%N "b");
               DialogWindow.AddBreak;
               DialogWindow.Add (Dialog.mkWidget Dialog.Inherit 5%N "c")]
              (sample_window_with
                 [DialogWindow.Add (Dialog.mkWidget Dialog.Inline 3%N "a");
                  DialogWindow.Add (Dialog.mkWidget Dialog.Inherit 4%N "b");
                  DialogWindow.AddBreak;
                  DialogWindow.Add (Dialog.mkWidget Dialog.Inherit 5%N "c")]) ∅
              eq_refl eq_refl eq_refl) as (g & Hg & _ & _ & _ & _ & Hs & _ & Hw).
  exists g. split; [exact Hg|]. split; [exact Hs|exact Hw].
Defined.

Example dialog_build_grid_cells :
  DialogWindow.m_grid
    (DialogWindow.build
       {| DialogWindow.this := 9%N; DialogWindow.id := "main"; DialogWindow.isAlive := true;
          DialogWindow.isVisible := false; DialogWindow.close_handlers := 0;
          DialogWindow.m_scriptFileName := "demo.lua"; DialogWindow.m_grid := None;
          DialogWindow.layout :=
            DialogWindow.laid_out
              [DialogWindow.Add (Dialog.mkWidget Dialog.Inline 3%N "a");
               DialogWindow.Add (Dialog.mkWidget Dialog.Inherit 4%N "b");
               DialogWindow.AddBreak;
               DialogWindow.Add (Dialog.mkWidget Dialog.Inherit 5%N "c")] |} ∅).1.1
  = Some {| DialogWindow.columns := 2;
            DialogWindow.cells :=
              [DialogWindow.mkCell 3%N 1; DialogWindow.mkCell 4%N 1; DialogWindow.mkCell 5%N 2] |}.
Proof. vm_compute. reflexivity. Qed.

(** [Dialog::build] does nothing at all on a dialog that is not alive or has
    its grid already, so a second [build] changes nothing.  Otherwise the
    dialog becomes visible, is opened, and, when its id is not empty, is the
    one [getDialogById] finds under that id afterwards, replacing any dialog
    listed there before; entries under other ids are left alone and a dialog
    with an empty id is not listed. *)
Theorem dialog_build_lists :
  forall (w : DialogWindow.Window) (index : DialogWindow.DialogIndex),
    (DialogWindow.isAlive w = false \/ is_Some (DialogWindow.m_grid w) ->
     DialogWindow.build w index = (w, index, [])) /\
    (DialogWindow.isAlive w = true -> DialogWindow.m_grid w = None ->
     let r := DialogWindow.build w index in
     DialogWindow.isVisible r.1.1 = true /\
     r.2 = [DialogWindow.OpenWindow (DialogWindow.this w)] /\
     (DialogWindow.id w <> "" ->
      DialogWindow.getDialogById (DialogWindow.id w) r.1.2 = DialogWindow.this w) /\
     (DialogWindow.id w = "" -> r.1.2 = index) /\
     (forall k, k <> DialogWindow.id w -> r.1.2 !! k = index !! k) /\
     DialogWindow.build r.1.1 r.1.2 = (r.1.1, r.1.2, [])).
Proof.
  intros w index. split; [apply build_skips|].
  intros Ha Hg r. subst r. rewrite (build_runs w index Ha Hg). simpl.
  split; [done|]. split; [done|]. split; [|split; [|split]].
  - intros Hid. rewrite bool_decide_eq_true_2 by done.
    unfold DialogWindow.getDialogById. by rewrite lookup_insert_eq.
  - intros Hid. rewrite bool_decide_eq_false_2; [done|]. by intros H.
  - intros k Hk. destruct (bool_decide _); [|done]. by rewrite lookup_insert_ne.
  - apply build_skips. right. simpl. eauto.
Qed.

Lemma dialog_build_lists_witness :
  DialogWindow.getDialogById "main"
    (DialogWindow.build (sample_window 9%N "main" true false) {[ "main" := 8%N ]}).1.2 = 9%N /\
  DialogWindow.build (sample_window 9%N "main" false false) ∅
    = (sample_window 9%N "main" false false, ∅, []).
Proof.
  split.
  - destruct (dialog_build_lists (sample_window 9%N "main" true false) {[ "main" := 8%N ]})
      as [_ H].
    destruct (H eq_refl eq_refl) as (_ & _ & Hid & _). apply Hid. discriminate.
  - destruct (dialog_build_lists (sample_window 9%N "main" false false) ∅) as [H _].
    apply H. left. reflexivity.
Defined.

(** [Dialog::unlist] removes the entry under the dialog's id only when that
    entry is the dialog itself: afterwards the id never leads to this dialog,
    an entry of another dialog under the same id stays, and the entries under
    other ids are untouched.  So when a second dialog has been built under
    the id of a first, closing the first leaves the second listed. *)
Theorem dialog_unlist_own_entry :
  forall (w : DialogWindow.Window) (index : DialogWindow.DialogIndex),
    DialogWindow.unlist w index !! DialogWindow.id w <> Some (DialogWindow.this w) /\
    (forall k, k <> DialogWindow.id w -> DialogWindow.unlist w index !! k = index !! k) /\
    (forall p, index !! DialogWindow.id w = Some p -> p <> DialogWindow.this w ->
       DialogWindow.unlist w index = index) /\
    (index !! DialogWindow.id w = Some (DialogWindow.this w) ->
       DialogWindow.getDialogById (DialogWindow.id w) (DialogWindow.unlist w index) = nullptr) /\
    (forall w2 raiseEvent notifyManager,
       DialogWindow.id w2 = DialogWindow.id w -> DialogWindow.id w <> "" ->
       DialogWindow.this w2 <> DialogWindow.this w ->
       DialogWindow.isAlive w = true -> DialogWindow.m_grid w = None ->
       DialogWindow.isAlive w2 = true -> DialogWindow.m_grid w2 = None ->
       DialogWindow.getDialogById (DialogWindow.id w)
         (DialogWindow.closeWindow raiseEvent notifyManager w
            (DialogWindow.build w2 (DialogWindow.build w index).1.2).1.2).1
       = DialogWindow.this w2).
Proof.
  intros w index. unfold DialogWindow.unlist.
  split; [|split; [|split; [|split]]].
  - destruct (index !! DialogWindow.id w) as [p|] eqn:Hi.
    + destruct (N.eqb_spec p (DialogWindow.this w)) as [->|Hne].
      * by rewrite lookup_delete_eq.
      * intros Hc. unfold addr in *. congruence.
    + intros Hc. unfold addr in *. congruence.
  - intros k Hk. destruct (index !! DialogWindow.id w) as [p|]; [|done].
    destruct (p =? DialogWindow.this w)%N; [|done]. by rewrite lookup_delete_ne.
  - intros p Hp Hne. unfold addr in *. rewrite Hp.
    by destruct (N.eqb_spec p (DialogWindow.this w)).
  - intros Hp. unfold addr in *. rewrite Hp, N.eqb_refl. unfold DialogWindow.getDialogById.
    by rewrite lookup_delete_eq.
  - intros w2 r n Hid Hne Hthis Ha Hg Ha2 Hg2.
    rewrite (build_runs w index Ha Hg). simpl.
    rewrite (build_runs w2 _ Ha2 Hg2). simpl.
    rewrite Hid. rewrite !bool_decide_eq_true_2 by done.
    unfold DialogWindow.unlist, DialogWindow.getDialogById.
    rewrite lookup_insert_eq.
    destruct (N.eqb_spec (DialogWindow.this w2) (DialogWindow.this w)); [done|].
    by rewrite lookup_insert_eq.
Qed.

Lemma dialog_unlist_own_entry_witness :
  DialogWindow.getDialogById "main"
    (DialogWindow.unlist (sample_window 9%N "main" true false) {[ "main" := 9%N ]}) = nullptr /\
  DialogWindow.unlist (sample_window 9%N "main" true false) {[ "main" := 8%N ]}
    = {[ "main" := 8%N ]} /\
  DialogWindow.getDialogById "main"
    (DialogWindow.closeWindow true false (sample_window 9%N "main" true false)
       (DialogWindow.build (sample_window 8%N "main" true false)
          (DialogWindow.build (sample_window 9%N "main" true false) ∅).1.2).1.2).1 = 8%N.
Proof.
  split; [|split].
  - destruct (dialog_unlist_own_entry (sample_window 9%N "main" true false)
                {[ "main" := 9%N ]}) as (_ & _ & _ & H & _).
    apply H. reflexivity.
  - destruct (dialog_unlist_own_entry (sample_window 9%N "main" true false)
                {[ "main" := 8%N ]}) as (_ & _ & H & _).
    apply (H 8%N); [reflexivity|discriminate].
  - destruct (dialog_unlist_own_entry (sample_window 9%N "main" true false) ∅)
      as (_ & _ & _ & _ & H).
    apply (H (sample_window 8%N "main" true false) true false);
      (reflexivity || discriminate).
Defined.

(** The listener [DialogScriptObject::build] registers.  Told that the
    evaluation failed, it never builds the dialog, and closes it (through the
    manager, unlisted, deletion scheduled) unless it is visible already.
    Told that it succeeded, it builds and opens a live dialog that has no
    grid yet and does not close it.  Once the dialog has shut down it does
    nothing. *)
Theorem dialog_listener_cases :
  forall (w : DialogWindow.Window) (index : DialogWindow.DialogIndex),
    (forall success, DialogWindow.afterEval_listener success None index = (None, index, [])) /\
    (DialogWindow.isVisible w = false ->
     DialogWindow.afterEval_listener false (Some w) index
     = (Some w, DialogWindow.unlist w index,
        [DialogWindow.ManagerCloseWindow (DialogWindow.this w);
         DialogWindow.Delayed (DialogWindow.this w)])) /\
    (DialogWindow.isVisible w = true ->
     DialogWindow.afterEval_listener false (Some w) index = (Some w, index, [])) /\
    (DialogWindow.isAlive w = true -> DialogWindow.m_grid w = None ->
     DialogWindow.afterEval_listener true (Some w) index
     = (Some (DialogWindow.build w index).1.1, (DialogWindow.build w index).1.2,
        [DialogWindow.OpenWindow (DialogWindow.this w)])) /\
    (DialogWindow.isAlive w = false -> DialogWindow.isVisible w = false ->
     DialogWindow.afterEval_listener true (Some w) index
     = (Some w, DialogWindow.unlist w index,
        [DialogWindow.ManagerCloseWindow (DialogWindow.this w);
         DialogWindow.Delayed (DialogWindow.this w)])).
Proof.
  intros w index. split; [done|]. split; [|split; [|split]].
  - intros Hv. unfold DialogWindow.afterEval_listener. by rewrite Hv.
  - intros Hv. unfold DialogWindow.afterEval_listener. by rewrite Hv.
  - intros Ha Hg. unfold DialogWindow.afterEval_listener.
    by rewrite (build_runs w index Ha Hg).
  - intros Ha Hv. unfold DialogWindow.afterEval_listener.
    rewrite (build_skips w index) by auto. by rewrite Hv.
Qed.

Lemma dialog_listener_cases_witness :
  DialogWindow.afterEval_listener false (Some (sample_window 9%N "main" true false)) ∅
    = (Some (sample_window 9%N "main" true false), ∅,
       [DialogWindow.ManagerCloseWindow 9%N; DialogWindow.Delayed 9%N]) /\
  (DialogWindow.afterEval_listener true (Some (sample_window 9%N "main" true false)) ∅).2
    = [DialogWindow.OpenWindow 9%N] /\
  DialogWindow.afterEval_listener false (Some (sample_window 9%N "main" true true)) ∅
    = (Some (sample_window 9%N "main" true true), ∅, []).
Proof.
  destruct (dialog_listener_cases (sample_window 9%N "main" true false) ∅)
    as (_ & Hfail & _ & Hok & _).
  destruct (dialog_listener_cases (sample_window 9%N "main" true true) ∅)
    as (_ & _ & Hvis & _).
  split; [|split].
  - apply Hfail. reflexivity.
  - rewrite Hok by reflexivity. reflexivity.
  - apply Hvis. reflexivity.
Defined.

(** Every listener that [LuaEngine::eval] invokes is told that the evaluation
    failed.  So the listener of a dialog created by a Lua script never
    builds that dialog, and closes it when it is not visible. *)
Theorem lua_eval_never_builds_dialog :
  forall (I : LuaEngine.Interp) (code : string) (e : LuaEngine.LuaEngine)
         (l : listener) (success : bool)
         (w : DialogWindow.Window) (index : DialogWindow.DialogIndex),
    AfterEval l success ∈ trace (LuaEngine.eval I code e) ->
    success = false /\
    (DialogWindow.afterEval_listener success (Some w) index).1.1 = Some w /\
    (DialogWindow.isVisible w = false ->
     (DialogWindow.afterEval_listener success (Some w) index).2
     = [DialogWindow.ManagerCloseWindow (DialogWindow.this w);
        DialogWindow.Delayed (DialogWindow.this w)]).
Proof.
  intros I code e l success w index Hin.
  assert (Hs : success = false).
  { assert (Hf : In (AfterEval l success) (fired (trace (LuaEngine.eval I code e)))).
    { apply filter_In. split; [by apply list_elem_of_In|done]. }
    rewrite lua_eval_fired, lua_eval_ret_false in Hf.
    apply in_map_iff in Hf as (l' & Heq & _). by injection Heq as _ <-. }
  subst success. split; [done|].
  unfold DialogWindow.afterEval_listener.
  destruct (DialogWindow.isVisible w); simpl; split; done.
Qed.

Lemma lua_eval_never_builds_dialog_witness :
  (DialogWindow.afterEval_listener false (Some (sample_window 9%N "main" true false)) ∅).2
  = [DialogWindow.ManagerCloseWindow 9%N; DialogWindow.Delayed 9%N].
Proof.
  destruct (lua_eval_never_builds_dialog (Sample.lua []) "Dialog()" Sample.lua_engine 1%N false
              (sample_window 9%N "main" true false) ∅) as (_ & _ & H).
  - vm_compute. left.
  - apply H. reflexivity.
Defined.

(** ** The widgets of a dialog script object *)

(** [DialogScriptObject::add] gives up with a null result, and changes
    nothing, when the type is empty, when the id is taken, or when no widget
    factory is registered under the normalized type name. *)
Theorem dialog_add_refuses :
  forall (reg : gmap string Dialog.WidgetScriptObject) (type id : string)
         (d : DialogScriptObject.DialogScriptObject),
    type = "" \/ is_Some (DialogScriptObject.get id d) \/
      reg !! DialogScriptObject.cleanType type = None ->
    DialogScriptObject.add reg type id d = (None, d).
Proof.
  intros reg type id d H. unfold DialogScriptObject.add.
  destruct H as [->|[H|H]].
  - done.
  - rewrite (bool_decide_eq_true_2 _ H). by rewrite orb_true_r.
  - destruct (_ || _); [done|]. by rewrite H.
Qed.

Lemma dialog_add_refuses_witness :
  DialogScriptObject.add
    {[ "LabelWidgetScriptObject" := Dialog.mkWidget Dialog.Inherit 3%N "" ]}
    "slider" "volume"
    (DialogScriptObject.mkDialogScriptObject ∅ 0 (Dialog.mkDialog false []))
  = (None, DialogScriptObject.mkDialogScriptObject ∅ 0 (Dialog.mkDialog false [])).
Proof.
  apply dialog_add_refuses. right. right. vm_compute. reflexivity.
Defined.

(** A widget added under an id of its own is the one [get] returns for that
    id afterwards, with that id set; the widgets under other ids and the id
    counter are as before, the widget is laid out in the dialog, and a second
    [add] under the same id is refused. *)
Theorem dialog_add_then_get :
  forall (reg : gmap string Dialog.WidgetScriptObject) (type id : string)
         (d : DialogScriptObject.DialogScriptObject) (widget : Dialog.WidgetScriptObject),
    type <> "" -> id <> "" -> DialogScriptObject.get id d = None ->
    reg !! DialogScriptObject.cleanType type = Some widget ->
    let r := DialogScriptObject.add reg type id d in
    r.1 = Some (Dialog.set_id id widget) /\
    DialogScriptObject.get id r.2 = Some (Dialog.set_id id widget) /\
    (forall k, k <> id -> DialogScriptObject.get k r.2 = DialogScriptObject.get k d) /\
    DialogScriptObject.m_nextWidgetId r.2 = DialogScriptObject.m_nextWidgetId d /\
    DialogScriptObject.m_widget r.2 = Dialog.add widget (DialogScriptObject.m_widget d) /\
    (forall type', DialogScriptObject.add reg type' id r.2 = (None, r.2)).
Proof.
  intros reg type id d widget Ht Hi Hg Hr r. subst r.
  rewrite (add_accepts reg type id d widget Ht Hg Hr).
  rewrite !bool_decide_eq_true_2 by done. cbv zeta. simpl.
  assert (Hget : DialogScriptObject.emplace id (Dialog.set_id id widget)
                   (DialogScriptObject.m_widgets d) !! id = Some (Dialog.set_id id widget)).
  { rewrite emplace_lookup. unfold DialogScriptObject.get in Hg. rewrite Hg.
    by destruct (decide (id = id)). }
  split; [done|]. split; [exact Hget|]. split; [|split; [done|split; [done|]]].
  - intros k Hk. unfold DialogScriptObject.get. simpl. rewrite emplace_lookup.
    destruct (DialogScriptObject.m_widgets d !! k); [done|].
    by destruct (decide (id = k)).
  - intros type'. apply add_taken. unfold DialogScriptObject.get. simpl.
    rewrite Hget. eauto.
Qed.

Lemma dialog_add_then_get_witness :
  DialogScriptObject.get "title"
    (DialogScriptObject.add
       {[ "LabelWidgetScriptObject" := Dialog.mkWidget Dialog.Inherit 3%N "" ]}
       "label" "title"
       (DialogScriptObject.mkDialogScriptObject ∅ 0 (Dialog.mkDialog false []))).2
  = Some (Dialog.mkWidget Dialog.Inherit 3%N "title").
Proof.
  apply (dialog_add_then_get
           {[ "LabelWidgetScriptObject" := Dialog.mkWidget Dialog.Inherit 3%N "" ]}
           "label" "title"
           (DialogScriptObject.mkDialogScriptObject ∅ 0 (Dialog.mkDialog false []))
           (Dialog.mkWidget Dialog.Inherit 3%N ""));
    (discriminate || (vm_compute; reflexivity)).
Defined.

(** [DialogScriptObject::add] never removes or replaces a stored widget:
    what [get] returned for an id before the call it returns after it. *)
Theorem dialog_add_keeps_widgets :
  forall (reg : gmap string Dialog.WidgetScriptObject) (type id k : string)
         (d : DialogScriptObject.DialogScriptObject) (w : Dialog.WidgetScriptObject),
    DialogScriptObject.get k d = Some w ->
    DialogScriptObject.get k (DialogScriptObject.add reg type id d).2 = Some w.
Proof.
  intros reg type id k d w Hk. unfold DialogScriptObject.add.
  destruct (_ || _); [done|].
  destruct (reg !! DialogScriptObject.cleanType type) as [widget|]; [|done].
  destruct (bool_decide (id ≠ "")); simpl; unfold DialogScriptObject.get in *; simpl;
    rewrite emplace_lookup; by rewrite Hk.
Qed.

Lemma dialog_add_keeps_widgets_witness :
  DialogScriptObject.get "label0"
    (DialogScriptObject.add
       {[ "LabelWidgetScriptObject" := Dialog.mkWidget Dialog.Inherit 3%N "" ]}
       "label" ""
       (DialogScriptObject.mkDialogScriptObject
          {[ "label0" := Dialog.mkWidget Dialog.Block 8%N "label0" ]} 0
          (Dialog.mkDialog false [[8%N]]))).2
  = Some (Dialog.mkWidget Dialog.Block 8%N "label0").
Proof.
  apply dialog_add_keeps_widgets. vm_compute. reflexivity.
Defined.

(** A widget added without an id gets the lower-cased type followed by the
    counter as its id, and the counter moves on by one, wrapping at 2^32.
    When that id is free the widget is stored under it.  When it is taken,
    the widget is returned and laid out in the dialog all the same, but the
    stored widgets are as before, so [get] does not find the new one. *)
Theorem dialog_add_generated_id :
  forall (reg : gmap string Dialog.WidgetScriptObject) (type : string)
         (d : DialogScriptObject.DialogScriptObject) (widget : Dialog.WidgetScriptObject),
    type <> "" -> DialogScriptObject.get "" d = None ->
    reg !! DialogScriptObject.cleanType type = Some widget ->
    let cleanId := string_to_lower type +:+ to_string (DialogScriptObject.m_nextWidgetId d) in
    let r := DialogScriptObject.add reg type "" d in
    r.1 = Some (Dialog.set_id cleanId widget) /\
    DialogScriptObject.m_nextWidgetId r.2
      = ((DialogScriptObject.m_nextWidgetId d + 1) mod 2 ^ 32)%N /\
    DialogScriptObject.m_widget r.2 = Dialog.add widget (DialogScriptObject.m_widget d) /\
    (DialogScriptObject.get cleanId d = None ->
       DialogScriptObject.get cleanId r.2 = Some (Dialog.set_id cleanId widget)) /\
    (is_Some (DialogScriptObject.get cleanId d) ->
       DialogScriptObject.m_widgets r.2 = DialogScriptObject.m_widgets d).
Proof.
  intros reg type d widget Ht Hg Hr cleanId r. subst r cleanId.
  rewrite (add_accepts reg type "" d widget Ht Hg Hr).
  rewrite !(bool_decide_eq_false_2 ("" ≠ "")) by (intros H; by apply H).
  cbv zeta. simpl. split; [done|]. split; [done|]. split; [done|]. split.
  - intros Hfree. unfold DialogScriptObject.get in *. simpl. rewrite emplace_lookup, Hfree.
    by destruct (decide _).
  - intros [old Hold]. unfold DialogScriptObject.get in Hold.
    unfold DialogScriptObject.emplace. by rewrite Hold.
Qed.

Lemma dialog_add_generated_id_witness :
  let reg : gmap string Dialog.WidgetScriptObject :=
    {[ "LabelWidgetScriptObject" := Dialog.mkWidget Dialog.Inherit 3%N "" ]} in
  let taken :=
    DialogScriptObject.mkDialogScriptObject
      {[ "label0" := Dialog.mkWidget Dialog.Block 8%N "label0" ]} 0
      (Dialog.mkDialog false [[8%N]]) in
  (DialogScriptObject.add reg "Label" "" taken).1
    = Some (Dialog.mkWidget Dialog.Inherit 3%N "label0") /\
  DialogScriptObject.m_widgets (DialogScriptObject.add reg "Label" "" taken).2
    = DialogScriptObject.m_widgets taken /\
  DialogScriptObject.m_nextWidgetId
    (DialogScriptObject.add reg "Label" ""
       (DialogScriptObject.mkDialogScriptObject ∅ 4294967295 (Dialog.mkDialog false []))).2
    = 0%N.
Proof.
  intros reg taken.
  destruct (dialog_add_generated_id reg "Label" taken (Dialog.mkWidget Dialog.Inherit 3%N ""))
    as (H1 & _ & _ & _ & H5); try (discriminate || (vm_compute; reflexivity)).
  destruct (dialog_add_generated_id reg "Label"
              (DialogScriptObject.mkDialogScriptObject ∅ 4294967295 (Dialog.mkDialog false []))
              (Dialog.mkWidget Dialog.Inherit 3%N ""))
    as (_ & H2 & _); try (discriminate || (vm_compute; reflexivity)).
  split; [exact H1|]. split; [|exact H2].
  apply H5. vm_compute. eauto.
Defined.

(** ** Native functions called from a script *)

Section Callbacks.
Import Native.

Lemma lua_collect_arguments L0 i n f :
  arguments (LuaCallbacks.collect L0 i n f) =
    arguments f ++ map (fun k => (LuaScriptObject.getValue L0 (i + Z.of_nat k)).1) (seq 0 n) /\
  body (LuaCallbacks.collect L0 i n f) = body f.
Proof.
  revert i f. induction n as [|n IH]; intros i f; simpl.
  - by rewrite app_nil_r.
  - destruct (IH (i + 1) (push_back (LuaScriptObject.getValue L0 i).1 f)) as [Ha Hb].
    rewrite Ha, Hb. simpl. split; [|done].
    rewrite <- app_assoc. simpl. rewrite Z.add_0_r. do 2 f_equal.
    rewrite <- seq_shift, map_map. apply map_ext. intros k. do 2 f_equal. lia.
Qed.

End Callbacks.

(** A closure without a function behind it returns nothing. *)
Lemma lua_callFunc_null h fns v L0 :
  LuaCallbacks.lua_touserdata v = nullptr ->
  LuaCallbacks.callFunc h fns v L0 = Some (0, L0, fns).
Proof. intros H. unfold LuaCallbacks.callFunc. by rewrite H. Qed.

(** What a Lua script gets back from a native function that returns its
    argument unchanged: a number as the same number, an integer as a float,
    a string as its text up to the first NUL, a boolean as the integer 0 or
    1, and for nil, a table, a function or userdata no value at all.  The
    argument stays on the stack below the result, and the function is left
    without pending arguments. *)
Theorem lua_callFunc_echo :
  forall (h : heap) (fns : gmap addr Native.Function) (ptr : addr) (f : Native.Function)
         (v : Lua.TValue) (g : gmap string Lua.TValue),
    ptr <> nullptr -> fns !! ptr = Some f -> Native.arguments f = [] ->
    (forall a rest, Native.body f (a :: rest) = a) ->
    exists fns',
      LuaCallbacks.callFunc h fns (Lua.LLightUserdata ptr) {| Lua.stack := [v]; Lua.globals := g |}
      = Some (match v with
              | Lua.LNumber _ | Lua.LInteger _ | Lua.LString _ | Lua.LBoolean _ => 1
              | _ => 0
              end,
              {| Lua.stack :=
                   v :: match v with
                        | Lua.LNumber d => [Lua.LNumber d]
                        | Lua.LInteger i => [Lua.LNumber (double_of_int i)]
                        | Lua.LString s => [Lua.LString (c_str s)]
                        | Lua.LBoolean b => [Lua.LInteger (if b then 1 else 0)]
                        | _ => []
                        end;
                 Lua.globals := g |},
              fns') /\
      (exists f', fns' !! ptr = Some f' /\ Native.arguments f' = []) /\
      (forall q, q <> ptr -> fns' !! q = fns !! q).
Proof.
  intros h fns ptr f v g Hp Hf Ha Hb.
  unfold LuaCallbacks.callFunc. simpl.
  destruct (N.eqb_spec ptr nullptr) as [|_]; [done|].
  rewrite Hf. cbn [mbind option_bind]. unfold Native.call. cbn [Native.result].
  change (Z.to_nat (Lua.lua_gettop {| Lua.stack := [v]; Lua.globals := g |})) with 1%nat.
  cbn [LuaCallbacks.collect Native.push_back Native.arguments Native.body].
  rewrite Ha. cbn [app]. rewrite Hb.
  rewrite (lua_getValue_pushed v {| Lua.stack := []; Lua.globals := g |}
           : LuaScriptObject.getValue {| Lua.stack := [v]; Lua.globals := g |} 1 = _).
  destruct v as [| [] | | | | | | | | | |];
    (eexists; split;
     [unfold LuaScriptObject.returnValue, Lua.lua_pushstring, Lua.lua_pushnumber,
        Lua.lua_pushinteger, Lua.push, Lua.with_stack; cbn [fst snd mbind option_bind];
      rewrite ?c_str_idemp; reflexivity
     |split; [eexists; split; [apply lookup_insert_eq|reflexivity]
             |intros q Hq; by apply lookup_insert_ne]]).
Qed.

Lemma lua_callFunc_echo_witness :
  exists fns',
    LuaCallbacks.callFunc ∅
      {[ 16%N := Native.mkFunction [] UNDEFINED (fun args => default UNDEFINED (head args)) ]}
      (Lua.LLightUserdata 16%N)
      {| Lua.stack := [Lua.LInteger (- 2 ^ 63)]; Lua.globals := ∅ |}
    = Some (1,
            {| Lua.stack := [Lua.LInteger (- 2 ^ 63);
                             Lua.LNumber (-9223372036854775808)%float];
               Lua.globals := ∅ |},
            fns').
Proof.
  destruct (lua_callFunc_echo ∅
              {[ 16%N := Native.mkFunction [] UNDEFINED (fun args => default UNDEFINED (head args)) ]}
              16%N (Native.mkFunction [] UNDEFINED (fun args => default UNDEFINED (head args)))
              (Lua.LInteger (- 2 ^ 63)) ∅) as (fns' & H & _).
  - discriminate.
  - reflexivity.
  - reflexivity.
  - reflexivity.
  - exists fns'. exact H.
Defined.

(** A property accessor in Lua: called without arguments it runs the getter
    and leaves the setter alone; called with arguments it runs the setter,
    handing it every argument in order, and leaves the getter alone.  No
    other property is touched. *)
Theorem lua_getset_dispatch :
  forall (h : heap) (props props' : gmap addr Native.ObjectProperty) (ptr : addr)
         (prop : Native.ObjectProperty) (L0 L1 : Lua.lua_State) (k : Z),
    ptr <> nullptr -> props !! ptr = Some prop ->
    LuaCallbacks.getset h props (Lua.LLightUserdata ptr) L0 = Some (k, L1, props') ->
    exists prop',
      props' !! ptr = Some prop' /\
      (forall q, q <> ptr -> props' !! q = props !! q) /\
      (Lua.stack L0 = [] ->
         Native.setter prop' = Native.setter prop /\
         Native.getter prop' = Native.call (Native.getter prop)) /\
      (Lua.stack L0 <> [] ->
         Native.getter prop' = Native.getter prop /\
         Native.arguments (Native.setter prop') = [] /\
         Native.result (Native.setter prop') =
           Native.body (Native.setter prop)
             (Native.arguments (Native.setter prop) ++
              map (fun i => (LuaScriptObject.getValue L0 (1 + Z.of_nat i)).1)
                  (seq 0 (length (Lua.stack L0))))).
Proof.
  intros h props props' ptr prop L0 L1 k Hp Hprop H.
  unfold LuaCallbacks.getset in H. simpl in H.
  destruct (N.eqb_spec ptr nullptr) as [|_]; [done|].
  rewrite Hprop in H. cbn [mbind option_bind] in H.
  destruct (LuaScriptObject.returnValue h L0 _) as [[k' L']|]; [|discriminate H].
  cbn [mbind option_bind] in H. injection H as _ _ <-.
  eexists. split; [apply lookup_insert_eq|]. split; [intros q Hq; by apply lookup_insert_ne|].
  unfold Lua.lua_gettop. split.
  - intros Hs. rewrite Hs. done.
  - intros Hs. destruct (Lua.stack L0) as [|v st] eqn:Hst; [done|].
    replace (Z.of_nat (length (v :: st)) =? 0) with false
      by (symmetry; apply Z.eqb_neq; simpl; lia).
    cbn [Native.getter Native.setter Native.call Native.arguments Native.result].
    split; [done|]. split; [done|].
    destruct (lua_collect_arguments L0 1 (Z.to_nat (Z.of_nat (length (v :: st))))
                (Native.setter prop)) as [Ha Hb].
    rewrite Ha, Hb. by rewrite Nat2Z.id.
Qed.

Lemma lua_getset_dispatch_witness :
  let prop := {| Native.getter := Native.mkFunction [] UNDEFINED (fun _ => INT 3);
                 Native.setter := Native.mkFunction [] UNDEFINED (fun args => INT (Z.of_nat (length args))) |} in
  exists prop',
    <[32%N := {| Native.getter := Native.getter prop;
                 Native.setter := Native.call
                   (Native.push_back (STRING "b") (Native.push_back (STRING "a") (Native.setter prop))) |}]>
      ({[ 32%N := prop ]} : gmap addr Native.ObjectProperty) !! 32%N = Some prop' /\
    Native.result (Native.setter prop') = INT 2.
Proof.
  intros prop.
  destruct (lua_getset_dispatch ∅ {[ 32%N := prop ]} _ 32%N prop
              {| Lua.stack := [Lua.LString "a"; Lua.LString "b"]; Lua.globals := ∅ |}
              _ _ ltac:(discriminate) eq_refl eq_refl) as (prop' & Hl & _ & _ & Hs).
  exists prop'. split; [exact Hl|].
  destruct (Hs ltac:(discriminate)) as (_ & _ & Hr). rewrite Hr. reflexivity.
Defined.

(** What a JavaScript caller gets back from a native function that returns
    its argument unchanged: a number as the same number, a string as what V8
    reads of its text up to the first NUL, which is that text when it is
    well-formed UTF-8, as the text of a JavaScript string is; a boolean as
    the number 0 or 1, and undefined for everything else; for a symbol, a
    bigint, a function or an object the unknown type is logged. *)
Theorem v8_callFunc_echo :
  forall (h : heap) (fns : gmap addr Native.Function) (data : addr) (f : Native.Function)
         (a : V8.v8_value),
    fns !! data = Some f -> Native.arguments f = [] ->
    (forall x rest, Native.body f (x :: rest) = x) ->
    exists fns',
      V8Callbacks.callFunc h fns data [a]
      = Some (match a with
              | V8.VNumber d => V8.VNumber d
              | V8.VString s => V8.VString (utf8_repair (c_str s))
              | V8.VBoolean b => V8.VNumber (double_of_int (if b then 1 else 0))
              | _ => V8.VUndefined
              end,
              fns',
              match a with
              | V8.VUndefined | V8.VNull | V8.VBoolean _ | V8.VNumber _ | V8.VString _ => []
              | _ => ["Unknown type: [" +:+ V8.TypeOf a +:+ "]" +:+ V8ScriptObject.newline]
              end) /\
      (forall s, a = V8.VString s -> well_formed_utf8 s = true ->
         V8Callbacks.callFunc h fns data [a] = Some (V8.VString (c_str s), fns', [])) /\
      (exists f', fns' !! data = Some f' /\ Native.arguments f' = []) /\
      (forall q, q <> data -> fns' !! q = fns !! q).
Proof.
  intros h fns data f a Hf Ha Hb.
  assert (Hstr : forall s, well_formed_utf8 s = true ->
                   V8.NewFromUtf8_text (c_str s) = c_str s).
  { intros s Hw. rewrite NewFromUtf8_text_c_str. by apply NewFromUtf8_text_of_well_formed. }
  unfold V8Callbacks.callFunc. rewrite Hf.
  cbn [mbind option_bind].
  destruct a as [| | [] | d | s | | | | |];
    (eexists; split;
     [cbn -[c_str double_of_int String.append utf8_repair]; rewrite Ha; cbn [app]; rewrite Hb;
      cbn -[c_str double_of_int String.append utf8_repair];
      unfold V8.String_NewFromUtf8, V8.NewFromUtf8_text; rewrite ?c_str_idemp; reflexivity
     |split;
      [intros s' [= <-] Hw;
       cbn -[c_str double_of_int String.append utf8_repair V8.NewFromUtf8_text];
       rewrite Ha; cbn [app]; rewrite Hb;
       cbn -[c_str double_of_int String.append utf8_repair V8.NewFromUtf8_text];
       unfold V8.String_NewFromUtf8; by rewrite (Hstr _ Hw)
      |split; [eexists; split; [apply lookup_insert_eq|reflexivity]
              |intros q Hq; by apply lookup_insert_ne]]]).
Qed.

Lemma v8_callFunc_echo_witness :
  exists fns',
    V8Callbacks.callFunc ∅
      {[ 16%N := Native.mkFunction [] UNDEFINED (fun args => default UNDEFINED (head args)) ]}
      16%N [V8.VBoolean true]
    = Some (V8.VNumber (double_of_int 1), fns', []).
Proof.
  destruct (v8_callFunc_echo ∅
              {[ 16%N := Native.mkFunction [] UNDEFINED (fun args => default UNDEFINED (head args)) ]}
              16%N (Native.mkFunction [] UNDEFINED (fun args => default UNDEFINED (head args)))
              (V8.VBoolean true)) as (fns' & H & _).
  - reflexivity.
  - reflexivity.
  - reflexivity.
  - exists fns'. exact H.
Defined.

(** The V8 accessors.  A setter called with no argument or with more than
    one does nothing: no native function runs, nothing is logged and the
    caller gets undefined.  A getter does not look at its arguments. *)
Theorem v8_accessor_arity :
  forall (h : heap) (fns : gmap addr Native.Function) (data : addr) (args : list V8.v8_value),
    (length args <> 1%nat ->
     V8Callbacks.setterFunc h fns data args = Some (V8.VUndefined, fns, [])) /\
    V8Callbacks.getterFunc h fns data args = V8Callbacks.getterFunc h fns data [].
Proof.
  intros h fns data args. split; [|reflexivity].
  intros Hlen. destruct args as [|a [|b rest]]; try reflexivity. by destruct Hlen.
Qed.

Lemma v8_accessor_arity_witness :
  V8Callbacks.setterFunc ∅ ∅ 16%N [V8.VNumber 1; V8.VNumber 2] = Some (V8.VUndefined, ∅, []).
Proof.
  apply (v8_accessor_arity ∅ ∅ 16%N [V8.VNumber 1; V8.VNumber 2]). discriminate.
Defined.

Lemma session_invokes_witness :
  Forall (fun entry => Session.is_evaluation entry.1 = true -> AfterEval 1%N false ∈ entry.2)
         (Session.session (Sample.lua [])
            [Session.CallEval "a = 1"; Session.CallAfterEval 2%N; Session.CallRaiseEvent "close"]
            Sample.lua_engine).1.
Proof.
  apply session_invokes. vm_compute. left.
Defined.
